(** * Recommendation micro-services: the ranker, the orchestrating endpoint
    and the cache-aside client endpoint

    Shallow embedding of [src/recommendation_service.py] and
    [src/client_service.py].

    Conventions of the embedding.
    - Python [int] is [Z]; [str] is [string]; a [dict] keyed by strings is a
      [gmap string _]; a list or a one-dimensional array is a [list].
    - The float64 entries of the TF-IDF matrix, of the user profile and of the
      similarity vector are exact rationals [Q].  Only their order is used by
      the code under study; rounding and NaN are outside the model.
    - A Python exception is a value of [exn]; code that may raise returns a
      [result].  An exception that leaves a FastAPI handler unhandled becomes
      status 500, an [HTTPException] becomes its own status code.
    - [TfidfVectorizer] (scikit-learn) is not part of the repository.  It is a
      record of two functions; nothing is assumed about the weights it
      computes. *)

From Stdlib Require Import QArith Ascii.
From stdpp Require Import gmap strings list pretty sorting.

Local Open Scope string_scope.
Local Open Scope list_scope.
Local Open Scope Z_scope.

(** ** Python values and exceptions *)

Module Py.

Inductive exn : Type :=
| ValueError
| ZeroDivisionError
| KeyError
| IndexError
| RedisError
| HTTPStatusError (status : Z)
| HTTPException (status_code : Z).

Inductive result (A : Type) : Type :=
| Ok (a : A)
| Raise (e : exn).
Arguments Ok {A} a.
Arguments Raise {A} e.

Definition bind {A B : Type} (c : result A) (k : A → result B) : result B :=
  match c with
  | Ok a => k a
  | Raise e => Raise e
  end.

(** [l[i]] for an index that is already a natural number. *)
Definition getitem {A : Type} (l : list A) (i : nat) : result A :=
  match l !! i with
  | Some x => Ok x
  | None => Raise IndexError
  end.

(** [d[k]] on a dict. *)
Definition getitem_dict {V : Type} (d : gmap string V) (k : string) : result V :=
  match d !! k with
  | Some v => Ok v
  | None => Raise KeyError
  end.

(** [l[start:]]: a negative [start] counts from the end, and both ends
    are clamped to the list.  [-0] is [0], so [l[-0:]] is the whole list. *)
Definition slice_from {A : Type} (start : Z) (l : list A) : list A :=
  let n := Z.of_nat (length l) in
  let lo := if start <? 0 then Z.max (n + start) 0 else Z.min start n in
  drop (Z.to_nat lo) l.

(** [l[::-1]] *)
Definition reversed {A : Type} (l : list A) : list A := reverse l.

(** [[f(i) for i in l]], stopping at the first exception. *)
Fixpoint comprehension {A B : Type} (f : A → result B) (l : list A) : result (list B) :=
  match l with
  | [] => Ok []
  | x :: l' =>
      match f x with
      | Raise e => Raise e
      | Ok y =>
          match comprehension f l' with
          | Raise e => Raise e
          | Ok ys => Ok (y :: ys)
          end
      end
  end.

(** pandas [Series.unique()]: distinct values in order of first appearance. *)
Fixpoint unique_from (seen : list string) (l : list string) : list string :=
  match l with
  | [] => []
  | x :: l' =>
      if bool_decide (x ∈ seen) then unique_from seen l'
      else x :: unique_from (x :: seen) l'
  end.

Definition unique (l : list string) : list string := unique_from [] l.

(** The status FastAPI answers with: 200 when the handler returns, the
    status of a raised [HTTPException], 500 for any other exception. *)
Definition http_status {A : Type} (outcome : result A) : Z :=
  match outcome with
  | Ok _ => 200
  | Raise (HTTPException status_code) => status_code
  | Raise _ => 500
  end.

End Py.

Import Py.

Notation "'do' x '<-' c 'in' k" := (Py.bind c (fun x => k))
  (at level 10, x name, c at level 100, k at level 200, only parsing).

(** ** numpy, scipy and scikit-learn functions used by the ranker *)

Module Np.

Definition vector : Type := list Q.
Definition matrix : Type := list (list Q).

Definition dot (u v : vector) : Q := foldr Qplus 0%Q (zip_with Qmult u v).

(** [sklearn.metrics.pairwise.linear_kernel(X, Y)] for a one-row [X]: the
    dot product of [X] with every row of [Y].  The pairwise check refuses
    an empty [Y] and rows whose width differs from that of [X]. *)
Definition linear_kernel (X : vector) (Y : matrix) : result vector :=
  match Y with
  | [] => Raise ValueError
  | _ =>
      if forallb (fun row => Nat.eqb (length row) (length X)) Y
      then Ok (map (dot X) Y)
      else Raise ValueError
  end.

Definition score_at (s : vector) (i : nat) : Q := nth i s 0%Q.

(** One step of the index sort: [i] goes in front of the first index whose
    score is strictly greater, hence behind every index of equal score. *)
Fixpoint insert_index (s : vector) (i : nat) (sorted : list nat) : list nat :=
  match sorted with
  | [] => [i]
  | j :: rest =>
      if Qle_bool (score_at s j) (score_at s i)
      then j :: insert_index s i rest
      else i :: sorted
  end.

(** [ndarray.argsort()] on one row: the indices [0 .. n-1] in ascending
    order of score.  numpy's default sort kind is not stable, so it fixes no
    order among indices of equal score; this definition is one admissible
    sort (it happens to keep equal scores in ascending index order).  The
    properties of the ranker below rest on what every admissible sort gives,
    a permutation of the indices in ascending order of score
    ([ascending_index_sort]); only a concrete evaluation shows the order
    this definition picks among equal scores. *)
Definition argsort (s : vector) : list nat :=
  foldl (fun acc i => insert_index s i acc) [] (seq 0 (length s)).

(** The order the index sort puts rows in: ascending score, and ascending
    row index among rows of equal score. *)
Definition ranks_before (s : vector) (a b : nat) : Prop :=
  (score_at s a < score_at s b)%Q ∨
  ((score_at s a == score_at s b)%Q ∧ (a < b)%nat).

(** [M.mean(axis=0)] on a scipy sparse matrix: every entry is scaled by
    [1.0 / M.shape[0]], which raises [ZeroDivisionError] when [M] has no
    row, and the columns are summed. *)
Definition mean_axis0 (M : matrix) : result vector :=
  match M with
  | [] => Raise ZeroDivisionError
  | row :: rows =>
      let w := (1 / inject_Z (Z.of_nat (length M)))%Q in
      Ok (foldl (zip_with Qplus) (map (fun x => (x * w)%Q) row)
            (map (map (fun x => (x * w)%Q)) rows))
  end.

End Np.

Import Np.

(** ** [src/recommendation_service.py] *)

Module recommendation_service.

(** One line of the interaction feed, with the columns of its header
    [user_id;name;age;gender;location;preferences;product_id;category;product_name;description;tags].
    The table is taken as [pd.read_csv] returns it when the text cells hold
    text: a cell that pandas reads as missing (an empty field), or a column
    it infers as numbers, is outside the model, and with it the exceptions
    such a table makes the handler raise. *)
Record InteractionRecord : Type := {
  col_user_id : Z;
  col_name : string;
  col_age : Z;
  col_gender : string;
  col_location : string;
  col_preferences : string;
  col_product_id : Z;
  col_category : string;
  col_product_name : string;
  col_description : string;
  col_tags : string
}.

(** An entry [{"id": ..., "name": ...}] of the recommendation list. *)
Record Recommendation : Type := {
  item_id : Z;
  item_name : string
}.

Record RecommendationResponse : Type := {
  user_id : Z;
  recommendations : list Recommendation
}.

(** scikit-learn's [TfidfVectorizer]: [fit_transform] learns a vocabulary
    from a corpus and returns the fitted vectorizer with the matrix of the
    corpus, [transform] maps documents to rows with a fitted vectorizer.
    Both may refuse their input (an empty vocabulary, an empty batch):
    [None] stands for the [ValueError] scikit-learn raises then. *)
Record TfidfVectorizer : Type := {
  fitted : Type;
  fit_transform : list string → option (fitted * matrix);
  transform : fitted → list string → option matrix
}.

Definition sklearn {A : Type} (outcome : option A) : result A :=
  match outcome with
  | Some a => Ok a
  | None => Raise ValueError
  end.

(** [user_data["combined_features"] = user_data["category"] + " " + user_data["tags"]] *)
Definition combined_features (row : InteractionRecord) : string :=
  col_category row +:+ " " +:+ col_tags row.

Definition create_user_profile (V : TfidfVectorizer) (user_id : Z)
    (user_data : list InteractionRecord) (tfidf_vectorizer : fitted V) : result vector :=
  let user_interactions := filter (fun row => col_user_id row = user_id) user_data in
  do user_features <-
    sklearn (transform V tfidf_vectorizer (map combined_features user_interactions)) in
  do user_profile <- mean_axis0 user_features in
  Ok user_profile.

(** [similarities.argsort()[0][-top_recommendations:][::-1]] *)
Definition similar_indices (similarities : vector) (top_recommendations : Z) : list nat :=
  reversed (slice_from (- top_recommendations) (argsort similarities)).

Definition recommend_content_based (user_profile : vector) (tfidf_matrix : matrix)
    (top_recommendations : Z) (unique_combined_features : list string)
    (product_mapping : gmap string Z) : result (list Recommendation) :=
  do similarities <- linear_kernel user_profile tfidf_matrix in
  comprehension
    (fun i =>
       do name <- getitem unique_combined_features i in
       do id <- getitem_dict product_mapping name in
       Ok {| item_id := id; item_name := name |})
    (similar_indices similarities top_recommendations).

(** [{row["combined_features"]: row["product_id"] for index, row in user_data.iterrows()}] *)
Definition product_mapping_of (user_data : list InteractionRecord) : gmap string Z :=
  foldl (fun m row => <[combined_features row := col_product_id row]> m) ∅ user_data.

(** The handler of [GET /recommend/{user_id}].  [feed] is what
    [fetch_data] returns: the parsed interaction table, or the exception of
    a failed fetch. *)
Definition content_recommend (V : TfidfVectorizer) (feed : result (list InteractionRecord))
    (user_id : Z) (top_recommendations : Z) : result RecommendationResponse :=
  do user_data <- feed in
  do fit <- sklearn (fit_transform V (unique (map combined_features user_data))) in
  let tfidf_vectorizer := fit.1 in
  let tfidf_matrix := fit.2 in
  let unique_combined_features := unique (map combined_features user_data) in
  let product_mapping := product_mapping_of user_data in
  do user_profile <- create_user_profile V user_id user_data tfidf_vectorizer in
  do recommended_products <-
    recommend_content_based user_profile tfidf_matrix top_recommendations
      unique_combined_features product_mapping in
  Ok {| user_id := user_id; recommendations := recommended_products |}.

(** An HTTP response of the service, as the client sees it. *)
Record HttpResponse : Type := {
  status_code : Z;
  json : option RecommendationResponse
}.

(** FastAPI's routing of [GET /recommend/{user_id}?...]: the handler's
    [top_recommendations] is read from the query parameter of that name and
    defaults to 5; query parameters of any other name are ignored; an
    exception that leaves the handler becomes status 500. *)
Definition serve (V : TfidfVectorizer) (feed : result (list InteractionRecord))
    (user_id : Z) (params : list (string * Z)) : HttpResponse :=
  let top_recommendations :=
    match list_find (fun p => p.1 = "top_recommendations") params with
    | Some (_, p) => p.2
    | None => 5
    end in
  let outcome := content_recommend V feed user_id top_recommendations in
  {| status_code := http_status outcome;
     json := match outcome with Ok r => Some r | Raise _ => None end |}.

End recommendation_service.

(** ** [src/client_service.py] *)

Module client_service.

Import recommendation_service.

(** The key-value store behind [redis_client]: its entries with their
    expiry times, and whether the next [GET] or [SETEX] fails with a
    [RedisError] (an outage of the store).  The stored bytes are
    [json.dumps] of a response and are read back with [json.loads]; the
    model keeps the response itself. *)
Record CacheEntry : Type := {
  value : RecommendationResponse;
  expires_at : Z
}.

Record Redis : Type := {
  entries : gmap string CacheEntry;
  get_fails : bool;
  setex_fails : bool
}.

(** [redis_client.get(key)] at time [now]: an entry is absent once its
    time-to-live has run out. *)
Definition redis_get (r : Redis) (now : Z) (key : string)
    : result (option RecommendationResponse) :=
  if get_fails r then Raise RedisError
  else
    match entries r !! key with
    | Some e => if now <? expires_at e then Ok (Some (value e)) else Ok None
    | None => Ok None
    end.

(** [redis_client.setex(key, ttl, v)] at time [now]. *)
Definition redis_setex (r : Redis) (now : Z) (key : string) (ttl : Z)
    (v : RecommendationResponse) : result Redis :=
  if setex_fails r then Raise RedisError
  else
    Ok {| entries := <[key := {| value := v; expires_at := now + ttl |}]> (entries r);
          get_fails := get_fails r;
          setex_fails := setex_fails r |}.

(** [f"user_recommendations:{user_id}"] *)
Definition cache_key (user_id : Z) : string :=
  "user_recommendations:" +:+ pretty user_id.

(** [response.raise_for_status()] *)
Definition raise_for_status (response : HttpResponse) : result unit :=
  if (200 <=? status_code response) && (status_code response <? 300)
  then Ok tt
  else Raise (HTTPStatusError (status_code response)).

(** [response.json()] *)
Definition response_json (response : HttpResponse) : result RecommendationResponse :=
  match json response with
  | Some body => Ok body
  | None => Raise ValueError
  end.

(** The handler of [GET /recommendations/{user_id}].  [service user_id params]
    is the answer of the recommendation service to
    [GET {RECOMMENDATION_SERVICE_URL}/{user_id}] with query parameters
    [params]; the store before and after the request is threaded
    explicitly.  The [try] block catches [httpx.HTTPStatusError] only. *)
Definition get_recommendations (service : Z → list (string * Z) → HttpResponse)
    (r : Redis) (now : Z) (user_id : Z) (num_recommendations : Z)
    : Redis * result RecommendationResponse :=
  match redis_get r now (cache_key user_id) with
  | Raise e => (r, Raise e)
  | Ok (Some cached_recommendations) => (r, Ok cached_recommendations)
  | Ok None =>
      let response := service user_id [("num_recommendations", num_recommendations)] in
      match raise_for_status response with
      | Raise (HTTPStatusError status) => (r, Raise (HTTPException status))
      | Raise e => (r, Raise e)
      | Ok _ =>
          match response_json response with
          | Raise e => (r, Raise e)
          | Ok body =>
              match redis_setex r now (cache_key user_id) 3600 body with
              | Raise (HTTPStatusError status) => (r, Raise (HTTPException status))
              | Raise e => (r, Raise e)
              | Ok r' => (r', Ok body)
              end
          end
      end
  end.

End client_service.

Import recommendation_service client_service.

(** ** [src/user_service.py]: the document store and the interaction feed *)

Module user_service.

Import recommendation_service.

(** The pydantic models of the three collections.  [price] is a float in
    the model; it plays no part in the feed. *)
Record UserData : Type := {
  u_user_id : Z;
  u_name : string;
  u_age : Z;
  u_gender : string;
  u_location : string;
  u_preferences : string
}.

Record PurchaseData : Type := {
  p_purchase_id : Z;
  p_product_id : Z;
  p_user_id : Z;
  p_quantity : Z;
  p_price : Q;
  p_timestamp : string
}.

Record ItemData : Type := {
  i_product_id : Z;
  i_category : string;
  i_product_name : string;
  i_description : string;
  i_tags : string
}.

(** The database [db]: each collection is the list of its documents in
    insertion order.  No collection has a unique index. *)
Record Db : Type := {
  users : list UserData;
  purchases : list PurchaseData;
  items : list ItemData
}.

(** [collection.find_one({field: v})]: the first document whose field has
    the value. *)
Definition find_one {D : Type} (field : D → Z) (v : Z) (collection : list D) : option D :=
  snd <$> list_find (fun d => field d = v) collection.

(** [collection.delete_one({field: v})]: the collection without the first
    document whose field has the value, and [deleted_count]. *)
Fixpoint delete_one {D : Type} (field : D → Z) (v : Z) (collection : list D)
    : list D * Z :=
  match collection with
  | [] => ([], 0)
  | d :: rest =>
      if decide (field d = v) then (rest, 1)
      else let '(rest', n) := delete_one field v rest in (d :: rest', n)
  end.

(** [POST /user/] *)
Definition create_user (db : Db) (user_data : UserData) : Db * result string :=
  ({| users := users db ++ [user_data]; purchases := purchases db; items := items db |},
   Ok "User created successfully").

(** [DELETE /user/{user_id}] *)
Definition delete_user (db : Db) (user_id : Z) : Db * result string :=
  let '(users', deleted_count) := delete_one u_user_id user_id (users db) in
  let db' := {| users := users'; purchases := purchases db; items := items db |} in
  if decide (deleted_count = 0) then (db', Raise (HTTPException 404))
  else (db', Ok "User deleted successfully").

(** [POST /purchase/] *)
Definition create_purchase (db : Db) (purchase_data : PurchaseData) : Db * result string :=
  ({| users := users db; purchases := purchases db ++ [purchase_data]; items := items db |},
   Ok "Purchase recorded successfully").

(** [DELETE /purchase/{purchase_id}] *)
Definition delete_purchase (db : Db) (purchase_id : Z) : Db * result string :=
  let '(purchases', deleted_count) := delete_one p_purchase_id purchase_id (purchases db) in
  let db' := {| users := users db; purchases := purchases'; items := items db |} in
  if decide (deleted_count = 0) then (db', Raise (HTTPException 404))
  else (db', Ok "Purchase deleted successfully").

(** The [$project] stage of [get_interactions]: the eleven fields of a feed
    row, from a purchase, the user joined to it and the item joined to it. *)
Definition project (p : PurchaseData) (u : UserData) (i : ItemData) : InteractionRecord :=
  {| col_user_id := p_user_id p;
     col_name := u_name u;
     col_age := u_age u;
     col_gender := u_gender u;
     col_location := u_location u;
     col_preferences := u_preferences u;
     col_product_id := p_product_id p;
     col_category := i_category i;
     col_product_name := i_product_name i;
     col_description := i_description i;
     col_tags := i_tags i |}.

(** [db.purchases.aggregate(pipeline)]: every purchase is joined
    ([$lookup]) with the users of its [user_id] and unwound ([$unwind]: one
    document per joined user, none when no user matches), then joined with
    the items of its [product_id] and unwound again, then projected. *)
Definition aggregate (db : Db) : list InteractionRecord :=
  p ← purchases db;
  u ← filter (fun u => u_user_id u = p_user_id p) (users db);
  i ← filter (fun i => i_product_id i = p_product_id p) (items db);
  [project p u i].

Definition newline : string := String "010"%char EmptyString.

Definition header : string :=
  "user_id;name;age;gender;location;preferences;product_id;category;product_name;description;tags"
  +:+ newline.

(** [map(str, item.values())] *)
Definition values (item : InteractionRecord) : list string :=
  [ pretty (col_user_id item); col_name item; pretty (col_age item);
    col_gender item; col_location item; col_preferences item;
    pretty (col_product_id item); col_category item; col_product_name item;
    col_description item; col_tags item ].

(** One data chunk of [generate]: [";".join(map(str, item.values())) + "\n"] *)
Definition line (item : InteractionRecord) : string :=
  String.concat ";" (values item) +:+ newline.

(** The chunks [generate()] yields for the aggregated [data]. *)
Definition generate (data : list InteractionRecord) : list string :=
  header :: map line data.

(** [GET /interactions]: the chunks of the CSV stream. *)
Definition get_interactions (db : Db) : list string :=
  generate (aggregate db).

End user_service.

(** ** [src/db_filler.py]: the import script *)

Module db_filler.

Import user_service.

(** How a run of the script ends: after its last line, with an exception
    raised while a row is processed, or at [next(csv_reader)] on a file
    without a header line ([StopIteration]). *)
Inductive outcome : Type :=
| Imported
| Crashed (e : exn)
| EmptyFile.

Section Script.

(** Python's [int] on a string ([None] stands for its [ValueError]), the
    successive results of [randint], and the clock read for each row. *)
Variable int : string → option Z.
Variable randint : nat → Z → Z → Z.
Variable utcnow : nat → string.

(** [int(row[k])] *)
Definition int_at (row : list string) (k : nat) : result Z :=
  do field <- getitem row k in
  match int field with
  | Some z => Ok z
  | None => Raise ValueError
  end.

Definition user_data_of (row : list string) : result UserData :=
  do user_id <- int_at row 0 in
  do name <- getitem row 1 in
  do age <- int_at row 2 in
  do gender <- getitem row 3 in
  do location <- getitem row 4 in
  do preferences <- getitem row 5 in
  Ok {| u_user_id := user_id; u_name := name; u_age := age; u_gender := gender;
        u_location := location; u_preferences := preferences |}.

Definition item_data_of (row : list string) : result ItemData :=
  do product_id <- int_at row 6 in
  do category <- getitem row 7 in
  do product_name <- getitem row 8 in
  do description <- getitem row 9 in
  do tags <- getitem row 10 in
  Ok {| i_product_id := product_id; i_category := category;
        i_product_name := product_name; i_description := description;
        i_tags := if decide (tags = "") then "" else tags |}.

(** The body of the [for] loop for the [k]-th data row.  The user is stored
    before the item fields of the row are read, so a row that fails there
    leaves its user behind. *)
Definition import_row (k : nat) (db : Db) (row : list string) : Db * result unit :=
  match user_data_of row with
  | Raise e => (db, Raise e)
  | Ok user_data =>
      let db1 :=
        match find_one u_user_id (u_user_id user_data) (users db) with
        | Some _ => db
        | None => {| users := users db ++ [user_data];
                     purchases := purchases db; items := items db |}
        end in
      match item_data_of row with
      | Raise e => (db1, Raise e)
      | Ok item_data =>
          let db2 :=
            match find_one i_product_id (i_product_id item_data) (items db1) with
            | Some _ => db1
            | None => {| users := users db1; purchases := purchases db1;
                         items := items db1 ++ [item_data] |}
            end in
          let purchase_data :=
            {| p_purchase_id := randint (3 * k) 1000 9999;
               p_product_id := i_product_id item_data;
               p_user_id := u_user_id user_data;
               p_quantity := randint (3 * k + 1) 1 4;
               p_price := inject_Z (randint (3 * k + 2) 10 1000);
               p_timestamp := utcnow k |} in
          ({| users := users db2; purchases := purchases db2 ++ [purchase_data];
              items := items db2 |}, Ok tt)
      end
  end.

Fixpoint import_rows (k : nat) (db : Db) (rows : list (list string)) : Db * outcome :=
  match rows with
  | [] => (db, Imported)
  | row :: rest =>
      match import_row k db row with
      | (db', Ok _) => import_rows (S k) db' rest
      | (db', Raise e) => (db', Crashed e)
      end
  end.

(** The script on the lines [csv.reader] yields: the first is the header. *)
Definition run (db : Db) (lines : list (list string)) : Db * outcome :=
  match lines with
  | [] => (db, EmptyFile)
  | header :: rows => import_rows 0 db rows
  end.

End Script.

End db_filler.

(** A store in which user ids and product ids are unique and every
    purchase refers to a stored user and a stored item. *)
Definition consistent (db : user_service.Db) : Prop :=
  NoDup (user_service.u_user_id <$> user_service.users db)
  ∧ NoDup (user_service.i_product_id <$> user_service.items db)
  ∧ Forall (fun p =>
              user_service.p_user_id p
                ∈ (user_service.u_user_id <$> user_service.users db)
              ∧ user_service.p_product_id p
                  ∈ (user_service.i_product_id <$> user_service.items db))
      (user_service.purchases db).

(** Number of occurrences of a character in a string. *)
Fixpoint count_char (c : ascii) (s : string) : nat :=
  match s with
  | EmptyString => 0
  | String a s' => (if decide (a = c) then 1 else 0) + count_char c s'
  end.

(** ** Test doubles and sample data *)

(** A stand-in for [TfidfVectorizer] with whole documents as terms: the
    vocabulary is the corpus, a document is the indicator vector of itself.
    Like scikit-learn's it refuses an empty corpus. *)
Definition indicator (vocabulary : list string) (doc : string) : vector :=
  map (fun term => if bool_decide (doc = term) then 1%Q else 0%Q) vocabulary.

Definition indicator_vectorizer : TfidfVectorizer :=
  {| fitted := list string;
     fit_transform docs :=
       match docs with
       | [] => None
       | _ => Some (docs, map (indicator docs) docs)
       end;
     transform vocabulary docs := Some (map (indicator vocabulary) docs) |}.

Definition purchase (user product : Z) (category product_name tags : string)
    : InteractionRecord :=
  {| col_user_id := user; col_name := "n"; col_age := 30; col_gender := "x";
     col_location := "l"; col_preferences := "p"; col_product_id := product;
     col_category := category; col_product_name := product_name;
     col_description := "d"; col_tags := tags |}.

(** The interactions of the example of the specification: user 1 bought two
    "books scifi" items, user 2 one "toys kids" item. *)
Definition sample_feed : list InteractionRecord :=
  [ purchase 1 101 "books" "Dune" "scifi";
    purchase 1 102 "books" "Foundation" "scifi";
    purchase 2 201 "toys" "Blocks" "kids" ].

(** A store in outage for reads, and one in outage for writes. *)
Definition store_get_down : Redis :=
  {| entries := ∅; get_fails := true; setex_fails := false |}.

Definition store_setex_down : Redis :=
  {| entries := ∅; get_fails := false; setex_fails := true |}.

(** A recommendation service that is down. *)
Definition service_down : Z → list (string * Z) → HttpResponse :=
  fun _ _ => {| status_code := 503; json := None |}.

Definition empty_store : Redis :=
  {| entries := ∅; get_fails := false; setex_fails := false |}.

Definition sample_service : Z → list (string * Z) → HttpResponse :=
  serve indicator_vectorizer (Ok sample_feed).

(** Inputs of the ranker alone: one feature, two candidate rows. *)
Definition two_features : list string := ["a"; "b"].

Definition two_products : gmap string Z := <["b" := 20]> (<["a" := 10]> ∅).

(** A stand-in for Python's [int]: plain strings of decimal digits. *)
Definition digit (a : ascii) : option Z :=
  let n := nat_of_ascii a in
  if ((48 <=? n) && (n <=? 57))%nat then Some (Z.of_nat (n - 48)) else None.

Fixpoint digits_value (acc : Z) (s : string) : option Z :=
  match s with
  | EmptyString => Some acc
  | String a s' =>
      match digit a with
      | Some d => digits_value (10 * acc + d) s'
      | None => None
      end
  end.

Definition decimal (s : string) : option Z :=
  match s with
  | EmptyString => None
  | _ => digits_value 0 s
  end.

(** A dataset file: the header and three rows, two of them of user 1; the
    second row of user 1 spells the name differently. *)
Definition sample_lines : list (list string) :=
  [ ["user_id"; "name"; "age"; "gender"; "location"; "preferences";
     "product_id"; "category"; "product_name"; "description"; "tags"];
    ["1"; "Ann"; "30"; "f"; "Oslo"; "books"; "101"; "books"; "Dune"; "a novel"; "scifi"];
    ["1"; "Anne"; "30"; "f"; "Oslo"; "books"; "201"; "toys"; "Blocks"; "wooden"; "kids"];
    ["2"; "Bob"; "41"; "m"; "Rome"; "toys"; "201"; "toys"; "Blocks"; "wooden"; "kids"] ].

Definition empty_db : user_service.Db :=
  {| user_service.users := []; user_service.purchases := []; user_service.items := [] |}.

Definition sample_randint (k : nat) (lo hi : Z) : Z := lo.

Definition sample_utcnow (k : nat) : string := "2024-01-01 00:00:00".

Definition sample_db : user_service.Db :=
  (db_filler.run decimal sample_randint sample_utcnow empty_db sample_lines).1.

(** The shape contract of [transform]: one row per document. *)
Definition row_per_document (V : TfidfVectorizer) : Prop :=
  ∀ (m : fitted V) (docs : list string) (X : matrix),
    transform V m docs = Some X → length X = length docs.

(** The shape contract of [fit_transform] and [transform]: the matrix of a
    corpus has one row per document, and all rows produced with one fitted
    vectorizer have the width of its vocabulary. *)
Definition well_shaped (V : TfidfVectorizer) : Prop :=
  ∀ (docs : list string) (m : fitted V) (X : matrix),
    fit_transform V docs = Some (m, X) →
    length X = length docs
    ∧ ∃ w, Forall (fun row => length row = w) X
           ∧ ∀ docs' X', transform V m docs' = Some X' →
               length X' = length docs' ∧ Forall (fun row => length row = w) X'.

(** What [ndarray.argsort()] promises of its result [order] on the scores
    [s]: a permutation of the indices, in ascending order of score.  Nothing
    is promised about indices of equal score. *)
Definition ascending_index_sort (s : vector) (order : list nat) : Prop :=
  order ≡ₚ seq 0 (length s)
  ∧ StronglySorted (fun a b => (score_at s a <= score_at s b)%Q) order.

(** ** Readings of the specification that the code is compared with *)

(** "For equal similarity scores, preserve the original row order": of two
    returned rows with equal scores, the one returned first has the smaller
    row index. *)
Definition ties_in_row_order (similarities : vector) (returned : list nat) : Prop :=
  ∀ p q a b, returned !! p = Some a → returned !! q = Some b → (p < q)%nat →
    (score_at similarities a == score_at similarities b)%Q → (a < b)%nat.

(** "The name field equals the product_name attribute of the recommended
    item": some row of the feed carries the entry's product id together with
    the entry's name as its product name. *)
Definition names_are_product_names (feed : list InteractionRecord)
    (returned : list Recommendation) : Prop :=
  Forall (fun e => ∃ row, row ∈ feed ∧ col_product_id row = item_id e
                          ∧ col_product_name row = item_name e) returned.

(** * Properties *)

(** ** List comprehensions and slices *)

Section Comprehension.
Context {A B : Type} (f : A → result B).

Lemma comprehension_Ok (l : list A) (ys : list B) :
  comprehension f l = Ok ys ↔ Forall2 (fun x y => f x = Ok y) l ys.
Proof.
  revert ys. induction l as [|x l IH]; intros ys; simpl.
  - split.
    + intros [= <-]. constructor.
    + intros H. inversion H. reflexivity.
  - destruct (f x) as [y|e] eqn:Hx.
    + destruct (comprehension f l) as [ys'|e] eqn:Hl.
      * split.
        -- intros [= <-]. constructor; [exact Hx | by apply IH].
        -- intros H. inversion H as [|? y0 ? ys0 Hy Hys]; subst.
           rewrite Hx in Hy. injection Hy as <-.
           apply IH in Hys. by injection Hys as <-.
      * split; [discriminate|].
        intros H. inversion H as [|? y0 ? ys0 Hy Hys]; subst.
        apply IH in Hys. discriminate.
    + split; [discriminate|].
      intros H. inversion H as [|? y0 ? ys0 Hy Hys]; subst.
      rewrite Hx in Hy. discriminate.
Qed.

Lemma comprehension_total (l : list A) :
  Forall (fun x => ∃ y, f x = Ok y) l → ∃ ys, comprehension f l = Ok ys.
Proof.
  induction 1 as [|x l [y Hy] _ [ys Hys]]; simpl.
  - by eexists.
  - rewrite Hy, Hys. by eexists.
Qed.

Lemma comprehension_length (l : list A) (ys : list B) :
  comprehension f l = Ok ys → length ys = length l.
Proof.
  intros H. apply comprehension_Ok in H.
  symmetry. by eapply Forall2_length.
Qed.
End Comprehension.


Lemma slice_from_zero {A : Type} (l : list A) : slice_from (- 0) l = l.
Proof. unfold slice_from. simpl. by rewrite Z.min_l by lia. Qed.

Lemma slice_from_drop {A : Type} (start : Z) (l : list A) :
  ∃ k, slice_from start l = drop k l.
Proof. unfold slice_from. by eexists. Qed.

(** ** The index sort *)

Section Sorted.
Context {A : Type} (R : relation A).

Lemma StronglySorted_reverse (l : list A) :
  StronglySorted R l → StronglySorted (flip R) (reverse l).
Proof.
  induction 1 as [|a l Hl IH Ha].
  - constructor.
  - rewrite reverse_cons. apply StronglySorted_app. split_and!.
    + intros x1 x2 Hx1 Hx2. apply list_elem_of_singleton in Hx2 as ->.
      rewrite elem_of_reverse in Hx1. unfold flip.
      rewrite Forall_forall in Ha. by apply Ha.
    + exact IH.
    + repeat constructor.
Qed.

Lemma StronglySorted_drop (k : nat) (l : list A) :
  StronglySorted R l → StronglySorted R (drop k l).
Proof.
  intros Hl. rewrite <- (take_drop k l) in Hl.
  by apply StronglySorted_app in Hl as (_ & _ & ?).
Qed.

Lemma StronglySorted_lookup (l : list A) (p q : nat) (a b : A) :
  StronglySorted R l → l !! p = Some a → l !! q = Some b → (p < q)%nat → R a b.
Proof.
  intros Hl. revert p q. induction Hl as [|x l Hl IH Hx]; intros p q Hp Hq Hpq.
  - done.
  - destruct q as [|q]; [lia|]. simpl in Hq.
    destruct p as [|p]; simpl in Hp.
    + injection Hp as ->. rewrite Forall_forall in Hx.
      apply Hx. by eapply list_elem_of_lookup_2.
    + apply (IH p q); [done..|lia].
Qed.
End Sorted.

Section Argsort.
Variable s : vector.

Lemma insert_index_perm (i : nat) (l : list nat) :
  insert_index s i l ≡ₚ i :: l.
Proof.
  induction l as [|j l IH]; simpl; [done|].
  destruct (Qle_bool _ _); [|done].
  rewrite IH. apply Permutation_swap.
Qed.

Lemma insert_index_sorted (i : nat) (l : list nat) :
  StronglySorted (ranks_before s) l →
  Forall (fun j => (j < i)%nat) l →
  StronglySorted (ranks_before s) (insert_index s i l).
Proof.
  induction l as [|j l IH]; simpl; intros Hs Hlt.
  - repeat constructor.
  - apply StronglySorted_cons in Hs as [Hj Hl].
    apply Forall_cons in Hlt as [Hji Hlt].
    destruct (Qle_bool (score_at s j) (score_at s i)) eqn:Hle.
    + apply Qle_bool_iff in Hle.
      constructor; [by apply IH|].
      rewrite insert_index_perm. constructor; [|done].
      apply Qle_lteq in Hle as [?|?]; [by left|by right].
    + assert (score_at s i < score_at s j)%Q as Hij.
      { apply Qnot_le_lt. intros H. apply Qle_bool_iff in H. congruence. }
      constructor; [by constructor|].
      constructor; [by left|].
      eapply Forall_impl; [exact Hj|].
      intros x [Hx|[Hx _]]; left.
      * by eapply Qlt_trans.
      * by rewrite <- Hx.
Qed.

Lemma argsort_fold_perm (acc : list nat) (start len : nat) :
  foldl (fun acc i => insert_index s i acc) acc (seq start len) ≡ₚ acc ++ seq start len.
Proof.
  revert acc start. induction len as [|len IH]; intros acc start; simpl.
  - by rewrite app_nil_r.
  - rewrite IH, insert_index_perm. simpl. apply Permutation_middle.
Qed.

Lemma argsort_fold_sorted (acc : list nat) (start len : nat) :
  StronglySorted (ranks_before s) acc →
  Forall (fun j => (j < start)%nat) acc →
  StronglySorted (ranks_before s)
    (foldl (fun acc i => insert_index s i acc) acc (seq start len)).
Proof.
  revert acc start. induction len as [|len IH]; intros acc start Hs Hlt; simpl.
  - done.
  - apply IH.
    + by apply insert_index_sorted.
    + rewrite insert_index_perm. constructor; [lia|].
      eapply Forall_impl; [exact Hlt|]. simpl. lia.
Qed.

Lemma argsort_perm : argsort s ≡ₚ seq 0 (length s).
Proof. unfold argsort. by rewrite argsort_fold_perm. Qed.

Lemma argsort_length : length (argsort s) = length s.
Proof. by rewrite argsort_perm, length_seq. Qed.

Lemma argsort_sorted : StronglySorted (ranks_before s) (argsort s).
Proof. apply argsort_fold_sorted; constructor. Qed.

Lemma argsort_bound (i : nat) : i ∈ argsort s → (i < length s)%nat.
Proof. rewrite argsort_perm, elem_of_seq. lia. Qed.

Lemma similar_indices_sorted (top_recommendations : Z) :
  StronglySorted (flip (ranks_before s)) (similar_indices s top_recommendations).
Proof.
  unfold similar_indices, reversed.
  destruct (slice_from_drop (- top_recommendations) (argsort s)) as [k ->].
  apply StronglySorted_reverse, StronglySorted_drop, argsort_sorted.
Qed.

Lemma similar_indices_bound (top_recommendations : Z) (i : nat) :
  i ∈ similar_indices s top_recommendations → (i < length s)%nat.
Proof.
  unfold similar_indices, reversed. rewrite elem_of_reverse.
  destruct (slice_from_drop (- top_recommendations) (argsort s)) as [k ->].
  intros Hi. apply argsort_bound.
  rewrite <- (take_drop k (argsort s)). apply elem_of_app. by right.
Qed.

End Argsort.

(** ** The Similarity Ranker, [recommend_content_based] *)

Lemma linear_kernel_Ok (X : vector) (Y : matrix) (sims : vector) :
  linear_kernel X Y = Ok sims → sims = map (dot X) Y ∧ length sims = length Y.
Proof.
  unfold linear_kernel. destruct Y as [|row Y]; [discriminate|].
  destruct (forallb _ _); [|discriminate].
  intros [= <-]. split; [done|]. apply (length_map (dot X) (row :: Y)).
Qed.

Lemma linear_kernel_total (X : vector) (Y : matrix) :
  Y ≠ [] → Forall (fun row => length row = length X) Y →
  linear_kernel X Y = Ok (map (dot X) Y).
Proof.
  intros Hne Hrows. unfold linear_kernel. destruct Y as [|row Y]; [done|].
  assert (forallb (fun row => Nat.eqb (length row) (length X)) (row :: Y) = true) as ->; [|done].
  apply forallb_forall. intros r Hr. apply Nat.eqb_eq.
  rewrite Forall_forall in Hrows. apply Hrows. by apply list_elem_of_In.
Qed.

Lemma recommend_content_based_Ok (user_profile : vector) (tfidf_matrix : matrix)
    (top_recommendations : Z) (unique_combined_features : list string)
    (product_mapping : gmap string Z) (recs : list Recommendation) :
  recommend_content_based user_profile tfidf_matrix top_recommendations
    unique_combined_features product_mapping = Ok recs ↔
  ∃ sims, linear_kernel user_profile tfidf_matrix = Ok sims ∧
    Forall2 (fun i e => unique_combined_features !! i = Some (item_name e)
                        ∧ product_mapping !! item_name e = Some (item_id e))
      (similar_indices sims top_recommendations) recs.
Proof.
  unfold recommend_content_based.
  destruct (linear_kernel user_profile tfidf_matrix) as [sims|e]; simpl.
  - rewrite comprehension_Ok. split.
    + intros H. exists sims. split; [done|].
      eapply Forall2_impl; [exact H|]. intros i [id name]; simpl.
      unfold getitem, getitem_dict.
      destruct (unique_combined_features !! i) as [f|]; simpl; [|discriminate].
      destruct (product_mapping !! f) as [pid|] eqn:Hf; simpl; [|discriminate].
      intros [= <- <-]. done.
    + intros (sims' & [= <-] & H).
      eapply Forall2_impl; [exact H|]. intros i [id name]; simpl.
      intros [Hi Hm]. unfold getitem, getitem_dict. rewrite Hi. simpl.
      by rewrite Hm.
  - split; [discriminate|]. by intros (? & ? & _).
Qed.



Lemma argsort_ascending (s : vector) : ascending_index_sort s (argsort s).
Proof.
  split; [apply argsort_perm|].
  pose proof (argsort_sorted s) as H.
  induction H as [|a l _ IH Ha]; constructor; [done|].
  eapply Forall_impl; [exact Ha|]. intros b [Hlt|[Heq _]].
  - by apply Qlt_le_weak.
  - rewrite Heq. apply Qle_refl.
Qed.

(** The last K indices of an ascending index sort, reversed, are in
    descending order of score, whatever the sort does with equal scores. *)
Lemma descending_selection (s : vector) (order : list nat) (K : Z) (p q a b : nat) :
  ascending_index_sort s order →
  reversed (slice_from (- K) order) !! p = Some a →
  reversed (slice_from (- K) order) !! q = Some b →
  (p < q)%nat →
  (score_at s b <= score_at s a)%Q.
Proof.
  intros [_ Hsorted] Hp Hq Hpq. unfold reversed in Hp, Hq.
  destruct (slice_from_drop (- K) order) as [k Hk]. rewrite Hk in Hp, Hq.
  apply (StronglySorted_drop _ k) in Hsorted.
  apply StronglySorted_reverse in Hsorted.
  exact (StronglySorted_lookup _ _ p q a b Hsorted Hp Hq Hpq).
Qed.

(** C5 (as amended).  For a requested count K > 0 the recommendations are
    the rows [similar_indices] selects, in that order, and they are in
    descending order of similarity score.  This holds for every index sort
    that returns the indices in ascending order of score; the order among
    rows of equal score is left to the sort and is not part of the
    statement. *)
Theorem ranking_descending (user_profile : vector) (tfidf_matrix : matrix)
    (K : Z) (unique_combined_features : list string) (product_mapping : gmap string Z)
    (recs : list Recommendation) :
  0 < K →
  recommend_content_based user_profile tfidf_matrix K
    unique_combined_features product_mapping = Ok recs →
  ∃ sims,
    linear_kernel user_profile tfidf_matrix = Ok sims
    ∧ Forall2 (fun i e => unique_combined_features !! i = Some (item_name e)
                          ∧ product_mapping !! item_name e = Some (item_id e))
        (similar_indices sims K) recs
    ∧ (∀ p q a b,
         similar_indices sims K !! p = Some a →
         similar_indices sims K !! q = Some b →
         (p < q)%nat →
         (score_at sims b <= score_at sims a)%Q)
    ∧ (∀ order, ascending_index_sort sims order →
         ∀ p q a b,
           reversed (slice_from (- K) order) !! p = Some a →
           reversed (slice_from (- K) order) !! q = Some b →
           (p < q)%nat →
           (score_at sims b <= score_at sims a)%Q).
Proof.
  intros _ Hrecs.
  apply recommend_content_based_Ok in Hrecs as (sims & Hsims & Hall).
  exists sims. split_and!; [done..| |].
  - intros p q a b. apply descending_selection, argsort_ascending.
  - intros order Horder p q a b. by apply descending_selection.
Qed.

Lemma ranking_descending_witness :
  ∃ sims,
    linear_kernel [1%Q] [[1%Q]; [2%Q]] = Ok sims
    ∧ Forall2 (fun i e => two_features !! i = Some (item_name e)
                          ∧ two_products !! item_name e = Some (item_id e))
        (similar_indices sims 2)
        [ {| item_id := 20; item_name := "b" |}; {| item_id := 10; item_name := "a" |} ]
    ∧ (∀ p q a b,
         similar_indices sims 2 !! p = Some a →
         similar_indices sims 2 !! q = Some b →
         (p < q)%nat →
         (score_at sims b <= score_at sims a)%Q)
    ∧ (∀ order, ascending_index_sort sims order →
         ∀ p q a b,
           reversed (slice_from (- 2) order) !! p = Some a →
           reversed (slice_from (- 2) order) !! q = Some b →
           (p < q)%nat →
           (score_at sims b <= score_at sims a)%Q).
Proof.
  apply (ranking_descending [1%Q] [[1%Q]; [2%Q]] 2 two_features two_products).
  - lia.
  - reflexivity.
Defined.

(** C5, the tie-break as the specification states it, fails: two candidate
    rows with the same score are returned with the later row first. *)
Lemma ties_not_in_row_order :
  recommend_content_based [1%Q] [[1%Q]; [1%Q]] 2 two_features two_products
  = Ok [ {| item_id := 20; item_name := "b" |}; {| item_id := 10; item_name := "a" |} ]
  ∧ ¬ (∀ (user_profile : vector) (tfidf_matrix : matrix) (K : Z) (sims : vector),
         0 < K → linear_kernel user_profile tfidf_matrix = Ok sims →
         ties_in_row_order sims (similar_indices sims K)).
Proof.
  split; [reflexivity|].
  intros H.
  specialize (H [1%Q] [[1%Q]; [1%Q]] 2 _ ltac:(lia) eq_refl 0%nat 1%nat 1%nat 0%nat).
  assert (1 < 0)%nat; [|lia].
  apply H; [reflexivity..|lia|reflexivity].
Qed.

Lemma similar_indices_zero (s : vector) :
  similar_indices s 0 = reverse (argsort s)
  ∧ length (similar_indices s 0) = length s.
Proof.
  unfold similar_indices, reversed. rewrite slice_from_zero.
  by rewrite length_reverse, argsort_length.
Qed.

(** C4, evaluated.  With a requested count of 0 the ranker returns every
    candidate row, and with a count of -1 all rows but the least similar
    one: [similar_indices] slices with [[-K:]], which for K = 0 is the whole
    array and for K < 0 drops the first |K| indices. *)
Theorem nonpositive_count_is_not_empty :
  recommend_content_based [1%Q] [[1%Q]; [2%Q]] 0 two_features two_products
  = Ok [ {| item_id := 20; item_name := "b" |}; {| item_id := 10; item_name := "a" |} ]
  ∧ recommend_content_based [1%Q] [[1%Q]; [2%Q]] (-1) two_features two_products
    = Ok [ {| item_id := 20; item_name := "b" |} ].
Proof. split; reflexivity. Qed.

(** ** The orchestrator, [content_recommend] *)

Lemma product_mapping_of_snoc (rows : list InteractionRecord) (row : InteractionRecord) :
  product_mapping_of (rows ++ [row])
  = <[combined_features row := col_product_id row]> (product_mapping_of rows).
Proof. unfold product_mapping_of. by rewrite foldl_app. Qed.

(** The mapping holds, for a combined-feature string, the product id of the
    last row of the feed that carries it. *)
Lemma product_mapping_of_lookup (rows : list InteractionRecord) (f : string) (pid : Z) :
  product_mapping_of rows !! f = Some pid ↔
  ∃ before row after,
    rows = before ++ row :: after
    ∧ combined_features row = f
    ∧ col_product_id row = pid
    ∧ Forall (fun r => combined_features r ≠ f) after.
Proof.
  revert pid. induction rows as [|r rows IH] using rev_ind; intros pid.
  - unfold product_mapping_of. simpl. rewrite lookup_empty. split; [discriminate|].
    intros (before & row & after & H & _). by destruct before.
  - rewrite product_mapping_of_snoc.
    destruct (decide (combined_features r = f)) as [Heq|Hne].
    + rewrite <- Heq, lookup_insert_eq. split.
      * intros [= <-]. exists rows, r, []. split_and!; [done..|constructor].
      * intros (before & row & after & Hrows & Hf & Hpid & Hafter).
        destruct after as [|x after _] using rev_ind.
        -- apply app_inj_tail in Hrows as [_ ->]. by rewrite Hpid.
        -- rewrite app_comm_cons, app_assoc in Hrows.
           apply app_inj_tail in Hrows as [_ ->].
           apply Forall_app in Hafter as [_ Hx].
           rewrite Forall_singleton in Hx. congruence.
    + rewrite lookup_insert_ne by done. rewrite IH. split.
      * intros (before & row & after & -> & Hf & Hpid & Hafter).
        exists before, row, (after ++ [r]). split_and!; [|done..|].
        -- by rewrite <- app_assoc.
        -- apply Forall_app. split; [done|]. by apply Forall_singleton.
      * intros (before & row & after & Hrows & Hf & Hpid & Hafter).
        destruct after as [|x after _] using rev_ind.
        -- apply app_inj_tail in Hrows as [_ ->]. congruence.
        -- rewrite app_comm_cons, app_assoc in Hrows.
           apply app_inj_tail in Hrows as [-> ->].
           apply Forall_app in Hafter as [Hafter _].
           by exists before, row, after.
Qed.

Lemma content_recommend_Ok (V : TfidfVectorizer) (rows : list InteractionRecord)
    (u K : Z) (resp : RecommendationResponse) :
  content_recommend V (Ok rows) u K = Ok resp →
  user_id resp = u
  ∧ ∃ vec tfidf_matrix user_profile,
      fit_transform V (unique (map combined_features rows)) = Some (vec, tfidf_matrix)
      ∧ create_user_profile V u rows vec = Ok user_profile
      ∧ recommend_content_based user_profile tfidf_matrix K
          (unique (map combined_features rows)) (product_mapping_of rows)
        = Ok (recommendations resp).
Proof.
  unfold content_recommend. simpl.
  destruct (fit_transform V _) as [[vec tfidf_matrix]|] eqn:Hfit; simpl; [|discriminate].
  destruct (create_user_profile V u rows vec) as [user_profile|] eqn:Hprof;
    simpl; [|discriminate].
  destruct (recommend_content_based _ _ _ _ _) as [recs|] eqn:Hrecs;
    simpl; [|discriminate].
  intros [= <-]. simpl. split; [done|].
  by exists vec, tfidf_matrix, user_profile.
Qed.

(** Every entry of a response is the combined-feature string of a candidate
    row together with what the product mapping holds for it. *)
Lemma content_recommend_entries (V : TfidfVectorizer) (rows : list InteractionRecord)
    (u K : Z) (resp : RecommendationResponse) (e : Recommendation) :
  content_recommend V (Ok rows) u K = Ok resp →
  e ∈ recommendations resp →
  item_name e ∈ unique (map combined_features rows)
  ∧ product_mapping_of rows !! item_name e = Some (item_id e).
Proof.
  intros Hresp He.
  apply content_recommend_Ok in Hresp as (_ & vec & M & prof & _ & _ & Hrecs).
  apply recommend_content_based_Ok in Hrecs as (sims & _ & Hall).
  apply list_elem_of_lookup in He as [k Hk].
  destruct (Forall2_lookup_r _ _ _ _ _ Hall Hk) as (i & _ & Hi & Hm).
  split; [|done]. by eapply list_elem_of_lookup_2.
Qed.

(** C10.  In a successful response, the product id paired with a
    combined-feature string is the product id of the last row of the feed
    that carries this string: when several rows share it, later rows
    overwrite earlier ones in the feature-to-product mapping. *)
Theorem product_id_of_last_row (V : TfidfVectorizer) (rows : list InteractionRecord)
    (u K : Z) (resp : RecommendationResponse) :
  content_recommend V (Ok rows) u K = Ok resp →
  Forall
    (fun e =>
       ∃ before row after,
         rows = before ++ row :: after
         ∧ combined_features row = item_name e
         ∧ col_product_id row = item_id e
         ∧ Forall (fun r => combined_features r ≠ item_name e) after)
    (recommendations resp).
Proof.
  intros Hresp. apply Forall_forall. intros e He.
  apply product_mapping_of_lookup.
  by eapply content_recommend_entries.
Qed.

Lemma product_id_of_last_row_witness :
  Forall
    (fun e =>
       ∃ before row after,
         sample_feed = before ++ row :: after
         ∧ combined_features row = item_name e
         ∧ col_product_id row = item_id e
         ∧ Forall (fun r => combined_features r ≠ item_name e) after)
    [ {| item_id := 102; item_name := "books scifi" |} ].
Proof.
  apply (product_id_of_last_row indicator_vectorizer sample_feed 1 1
           {| user_id := 1;
              recommendations := [ {| item_id := 102; item_name := "books scifi" |} ] |}).
  reflexivity.
Defined.

(** C9 (as amended).  In a successful response every entry pairs the product
    id of a row of the feed with that row's combined-feature string
    (category, a space, tags) as its name. *)
Theorem name_is_combined_features (V : TfidfVectorizer) (rows : list InteractionRecord)
    (u K : Z) (resp : RecommendationResponse) :
  content_recommend V (Ok rows) u K = Ok resp →
  Forall (fun e => ∃ row, row ∈ rows ∧ col_product_id row = item_id e
                          ∧ combined_features row = item_name e)
    (recommendations resp).
Proof.
  intros Hresp. apply Forall_forall. intros e He.
  destruct (content_recommend_entries V rows u K resp e Hresp He) as [_ Hm].
  apply product_mapping_of_lookup in Hm as (before & row & after & -> & Hf & Hpid & _).
  exists row. split_and!; [|done..].
  apply elem_of_app. right. apply elem_of_cons. by left.
Qed.

Lemma name_is_combined_features_witness :
  Forall (fun e => ∃ row, row ∈ sample_feed ∧ col_product_id row = item_id e
                          ∧ combined_features row = item_name e)
    [ {| item_id := 102; item_name := "books scifi" |} ].
Proof.
  apply (name_is_combined_features indicator_vectorizer sample_feed 1 1
           {| user_id := 1;
              recommendations := [ {| item_id := 102; item_name := "books scifi" |} ] |}).
  reflexivity.
Defined.

(** C9, as the specification states it, fails: product 102 is named
    "Foundation" in the feed and "books scifi" in the response. *)
Lemma name_is_not_product_name :
  content_recommend indicator_vectorizer (Ok sample_feed) 1 1
  = Ok {| user_id := 1;
          recommendations := [ {| item_id := 102; item_name := "books scifi" |} ] |}
  ∧ ¬ names_are_product_names sample_feed
        [ {| item_id := 102; item_name := "books scifi" |} ].
Proof.
  split; [reflexivity|].
  unfold names_are_product_names. intros H.
  apply Forall_cons in H as [(row & Hrow & _ & Hname) _]. simpl in Hname.
  unfold sample_feed in Hrow.
  repeat (apply elem_of_cons in Hrow as [->|Hrow]; [discriminate|]).
  by apply elem_of_nil in Hrow.
Qed.

(** ** Users without interactions *)

Lemma filter_no_match (rows : list InteractionRecord) (u : Z) :
  Forall (fun row => col_user_id row ≠ u) rows →
  filter (fun row => col_user_id row = u) rows = [].
Proof.
  induction 1 as [|row rows Hrow _ IH]; [done|].
  by rewrite filter_cons_False.
Qed.

Lemma create_user_profile_no_rows (V : TfidfVectorizer) (u : Z)
    (rows : list InteractionRecord) (vec : fitted V) :
  row_per_document V →
  Forall (fun row => col_user_id row ≠ u) rows →
  create_user_profile V u rows vec = Raise ValueError
  ∨ create_user_profile V u rows vec = Raise ZeroDivisionError.
Proof.
  intros HV Hrows. unfold create_user_profile.
  rewrite filter_no_match by done. simpl.
  destruct (transform V vec []) as [X|] eqn:HX; simpl; [|by left].
  apply HV in HX. apply nil_length_inv in HX as ->. by right.
Qed.

Lemma content_recommend_no_rows (V : TfidfVectorizer) (rows : list InteractionRecord)
    (u K : Z) :
  row_per_document V →
  Forall (fun row => col_user_id row ≠ u) rows →
  content_recommend V (Ok rows) u K = Raise ValueError
  ∨ content_recommend V (Ok rows) u K = Raise ZeroDivisionError.
Proof.
  intros HV Hrows. unfold content_recommend. simpl.
  destruct (fit_transform V _) as [[vec M]|]; simpl; [|by left].
  destruct (create_user_profile_no_rows V u rows vec HV Hrows) as [-> | ->];
    simpl; [by left|by right].
Qed.

Lemma no_rows_status_500 (V : TfidfVectorizer) (rows : list InteractionRecord)
    (u K : Z) :
  row_per_document V →
  Forall (fun row => col_user_id row ≠ u) rows →
  http_status (content_recommend V (Ok rows) u K) = 500.
Proof.
  intros HV Hrows.
  by destruct (content_recommend_no_rows V rows u K HV Hrows) as [-> | ->].
Qed.

(** C2 (as amended).  For every interaction table and every user id with no
    matching row in it, a recommendation request does not return a response:
    the profile of an empty selection cannot be built (the vectorizer refuses
    the empty batch, or the mean over zero rows divides by zero), the
    exception leaves the handler and the request is answered with status
    500. *)
Theorem cold_start_is_an_error (V : TfidfVectorizer) (rows : list InteractionRecord)
    (u K : Z) :
  row_per_document V →
  Forall (fun row => col_user_id row ≠ u) rows →
  (content_recommend V (Ok rows) u K = Raise ValueError
   ∨ content_recommend V (Ok rows) u K = Raise ZeroDivisionError)
  ∧ http_status (content_recommend V (Ok rows) u K) = 500.
Proof.
  intros HV Hrows.
  destruct (content_recommend_no_rows V rows u K HV Hrows) as [H|H];
    rewrite H; split; auto.
Qed.

Lemma indicator_row_per_document : row_per_document indicator_vectorizer.
Proof.
  intros m docs X. simpl. intros [= <-]. apply length_map.
Qed.

Lemma user_3_has_no_rows : Forall (fun row => col_user_id row ≠ 3) sample_feed.
Proof. repeat constructor; discriminate. Qed.

Lemma cold_start_is_an_error_witness :
  (content_recommend indicator_vectorizer (Ok sample_feed) 3 5 = Raise ValueError
   ∨ content_recommend indicator_vectorizer (Ok sample_feed) 3 5 = Raise ZeroDivisionError)
  ∧ http_status (content_recommend indicator_vectorizer (Ok sample_feed) 3 5) = 500.
Proof.
  apply (cold_start_is_an_error indicator_vectorizer sample_feed 3 5).
  - intros m docs X. simpl. intros [= <-]. apply length_map.
  - repeat constructor; discriminate.
Defined.

(** C2, as the specification states it, fails: user 3 has no row in the
    sample feed and the request ends in an exception, not in a response
    with an empty list. *)
Lemma cold_start_is_not_an_empty_list :
  content_recommend indicator_vectorizer (Ok sample_feed) 3 5 = Raise ZeroDivisionError
  ∧ ¬ (∃ resp, content_recommend indicator_vectorizer (Ok sample_feed) 3 5 = Ok resp
               ∧ recommendations resp = []).
Proof.
  split; [reflexivity|].
  intros (resp & H & _). discriminate H.
Qed.

(** ** The two endpoints together *)

Lemma serve_status (V : TfidfVectorizer) (feed : result (list InteractionRecord))
    (u : Z) (params : list (string * Z)) (s : Z) :
  (∀ K, http_status (content_recommend V feed u K) = s) →
  status_code (serve V feed u params) = s.
Proof. intros H. unfold serve. simpl. apply H. Qed.

(** A cache miss on a service that answers with a status outside 2xx: the
    status is passed on in an [HTTPException] and nothing is stored. *)
Lemma get_recommendations_upstream_error (service : Z → list (string * Z) → HttpResponse)
    (r : Redis) (now u n : Z) :
  redis_get r now (cache_key u) = Ok None →
  ¬ (200 ≤ status_code (service u [("num_recommendations", n)]) < 300) →
  get_recommendations service r now u n
  = (r, Raise (HTTPException (status_code (service u [("num_recommendations", n)])))).
Proof.
  intros Hmiss Hst. unfold get_recommendations. rewrite Hmiss.
  unfold raise_for_status.
  destruct (Z.leb_spec 200 (status_code (service u [("num_recommendations", n)])));
    destruct (Z.ltb_spec (status_code (service u [("num_recommendations", n)])) 300);
    simpl; try done; lia.
Qed.

(** C8 (as amended).  For every recommendation query whose user id does not
    occur in the interaction data, the endpoint yields an error status
    rather than a success response: the recommendation service answers 500 (a
    server error, for any count), and on a cache miss the client-facing
    endpoint passes that status on. *)
Theorem unknown_user_is_status_500 (V : TfidfVectorizer) (rows : list InteractionRecord)
    (u : Z) :
  row_per_document V →
  Forall (fun row => col_user_id row ≠ u) rows →
  (∀ params, status_code (serve V (Ok rows) u params) = 500)
  ∧ ∀ r now n,
      redis_get r now (cache_key u) = Ok None →
      get_recommendations (serve V (Ok rows)) r now u n = (r, Raise (HTTPException 500))
      ∧ http_status (get_recommendations (serve V (Ok rows)) r now u n).2 = 500.
Proof.
  intros HV Hrows.
  assert (∀ params, status_code (serve V (Ok rows) u params) = 500) as Hserve.
  { intros params. apply serve_status. intros K.
    by apply no_rows_status_500. }
  split; [done|].
  intros r now n Hmiss.
  rewrite get_recommendations_upstream_error; [|done|rewrite Hserve; lia].
  by rewrite Hserve.
Qed.

Lemma unknown_user_is_status_500_witness :
  (∀ params, status_code (serve indicator_vectorizer (Ok sample_feed) 3 params) = 500)
  ∧ ∀ r now n,
      redis_get r now (cache_key 3) = Ok None →
      get_recommendations (serve indicator_vectorizer (Ok sample_feed)) r now 3 n
      = (r, Raise (HTTPException 500))
      ∧ http_status
          (get_recommendations (serve indicator_vectorizer (Ok sample_feed)) r now 3 n).2
        = 500.
Proof.
  apply (unknown_user_is_status_500 indicator_vectorizer sample_feed 3).
  - intros m docs X. simpl. intros [= <-]. apply length_map.
  - repeat constructor; discriminate.
Defined.

(** C8, as the specification states it, fails: a negative count is served
    with status 200 by the recommendation service and by the client-facing
    endpoint, and the status for an unknown user is 500, not a client error. *)
Lemma negative_count_is_served :
  serve indicator_vectorizer (Ok sample_feed) 1 [("top_recommendations", -1)]
  = {| status_code := 200;
       json := Some {| user_id := 1;
                       recommendations :=
                         [ {| item_id := 102; item_name := "books scifi" |} ] |} |}
  ∧ http_status (get_recommendations sample_service empty_store 0 1 (-1)).2 = 200
  ∧ status_code (serve indicator_vectorizer (Ok sample_feed) 3 []) = 500.
Proof. split_and!; reflexivity. Qed.

(** ** The cache-aside endpoint, [get_recommendations] *)

Lemma redis_get_hit (r : Redis) (now : Z) (key : string) (v : RecommendationResponse) :
  redis_get r now key = Ok (Some v) ↔
  get_fails r = false
  ∧ ∃ e, entries r !! key = Some e ∧ now < expires_at e ∧ value e = v.
Proof.
  unfold redis_get. destruct (get_fails r).
  - split; [discriminate|]. by intros [? _].
  - destruct (entries r !! key) as [e|].
    + destruct (Z.ltb_spec now (expires_at e)).
      * split.
        -- intros [= <-]. split; [done|]. by exists e.
        -- intros (_ & e' & [= <-] & _ & <-). done.
      * split; [discriminate|]. intros (_ & e' & [= <-] & ? & _). lia.
    + split; [discriminate|]. by intros (_ & e' & ? & _).
Qed.

Lemma get_recommendations_hit (service : Z → list (string * Z) → HttpResponse)
    (r : Redis) (now u n : Z) (v : RecommendationResponse) :
  redis_get r now (cache_key u) = Ok (Some v) →
  get_recommendations service r now u n = (r, Ok v).
Proof. intros H. unfold get_recommendations. by rewrite H. Qed.

Lemma get_recommendations_get_outage (service : Z → list (string * Z) → HttpResponse)
    (r : Redis) (now u n : Z) :
  get_fails r = true →
  get_recommendations service r now u n = (r, Raise RedisError).
Proof. intros H. unfold get_recommendations, redis_get. by rewrite H. Qed.

Lemma get_recommendations_setex_outage (service : Z → list (string * Z) → HttpResponse)
    (r : Redis) (now u n : Z) (body : RecommendationResponse) :
  redis_get r now (cache_key u) = Ok None →
  service u [("num_recommendations", n)] = {| status_code := 200; json := Some body |} →
  setex_fails r = true →
  get_recommendations service r now u n = (r, Raise RedisError).
Proof.
  intros Hmiss Hsvc Hdown. unfold get_recommendations.
  rewrite Hmiss, Hsvc. simpl. unfold redis_setex. by rewrite Hdown.
Qed.

(** C1, evaluated.  With the store in outage for reads, or for writes, a
    request that the recommendation service would answer is not degraded to
    direct computation: the [RedisError] leaves the handler, which answers
    with status 500. *)
Theorem store_outage_is_surfaced :
  status_code (sample_service 1 [("num_recommendations", 5)]) = 200
  ∧ get_recommendations sample_service store_get_down 0 1 5
    = (store_get_down, Raise RedisError)
  ∧ get_recommendations sample_service store_setex_down 0 1 5
    = (store_setex_down, Raise RedisError)
  ∧ http_status (get_recommendations sample_service store_get_down 0 1 5).2 = 500
  ∧ http_status (get_recommendations sample_service store_setex_down 0 1 5).2 = 500.
Proof. split_and!; reflexivity. Qed.

(** The recommendation service reads its count from [top_recommendations];
    the [num_recommendations] the client sends is ignored and the count is
    the default 5. *)
Lemma serve_ignores_num_recommendations (V : TfidfVectorizer)
    (feed : result (list InteractionRecord)) (u n : Z) :
  serve V feed u [("num_recommendations", n)] = serve V feed u []
  ∧ json (serve V feed u [("num_recommendations", n)])
    = match content_recommend V feed u 5 with Ok r => Some r | Raise _ => None end.
Proof. split; reflexivity. Qed.

Lemma get_recommendations_any_count (V : TfidfVectorizer)
    (feed : result (list InteractionRecord)) (r : Redis) (now u n n' : Z) :
  get_recommendations (serve V feed) r now u n
  = get_recommendations (serve V feed) r now u n'.
Proof. reflexivity. Qed.

(** C3, evaluated.  A cache-miss request for user 1 with a requested count
    of 1, on a feed with N = 2 unique candidate items, returns 2
    recommendations, where the ranker called with the count 1 returns 1: the
    count does not reach the recommendation computation. *)
Theorem requested_count_is_dropped :
  redis_get empty_store 0 (cache_key 1) = Ok None
  ∧ (get_recommendations sample_service empty_store 0 1 1).2
    = Ok {| user_id := 1;
            recommendations :=
              [ {| item_id := 102; item_name := "books scifi" |};
                {| item_id := 201; item_name := "toys kids" |} ] |}
  ∧ content_recommend indicator_vectorizer (Ok sample_feed) 1 1
    = Ok {| user_id := 1;
            recommendations := [ {| item_id := 102; item_name := "books scifi" |} ] |}.
Proof. split_and!; reflexivity. Qed.

Lemma cache_key_inj (u u' : Z) : cache_key u' = cache_key u → u' = u.
Proof.
  unfold cache_key. intros H.
  apply (inj (String.app "user_recommendations:")) in H.
  by apply (inj pretty) in H.
Qed.

(** After a request that returned a response, the store holds that response
    under the key of the user, not yet expired. *)
Lemma get_recommendations_entry (service : Z → list (string * Z) → HttpResponse)
    (r r' : Redis) (now u n : Z) (resp : RecommendationResponse) :
  get_recommendations service r now u n = (r', Ok resp) →
  get_fails r' = false
  ∧ ∃ e, entries r' !! cache_key u = Some e ∧ value e = resp ∧ now < expires_at e
         ∧ (redis_get r now (cache_key u) = Ok None → expires_at e = now + 3600).
Proof.
  unfold get_recommendations.
  destruct (redis_get r now (cache_key u)) as [[cached|]|e] eqn:Hget.
  - intros [= <- <-]. apply redis_get_hit in Hget as (Hup & e & He & Hlive & Hv).
    split; [done|]. exists e. split_and!; [done..|discriminate].
  - assert (get_fails r = false) as Hup.
    { unfold redis_get in Hget. by destruct (get_fails r). }
    destruct (raise_for_status _) as [[]|[]]; try by (intros ?; simplify_eq).
    destruct (response_json _) as [body|]; [|intros ?; simplify_eq].
    unfold redis_setex. destruct (setex_fails r); [intros ?; simplify_eq|].
    intros [= <- <-]. simpl. split; [done|].
    eexists. rewrite lookup_insert_eq. split_and!; [done..|simpl; lia|done].
  - intros ?. simplify_eq.
Qed.

(** C6 (as amended).  The cache entry key is a deterministic function of
    the user id alone, distinct for distinct users; the requested count is
    not part of it.  After a request for a user has returned a response,
    every request for the same user, whatever its count, observes that same
    value until the entry expires (3600 seconds after a miss wrote it). *)
Theorem cache_is_keyed_by_user_alone (service : Z → list (string * Z) → HttpResponse)
    (r r' : Redis) (now u n : Z) (resp : RecommendationResponse) :
  get_recommendations service r now u n = (r', Ok resp) →
  (∀ u', cache_key u' = cache_key u → u' = u)
  ∧ ∃ e, entries r' !! cache_key u = Some e
         ∧ value e = resp
         ∧ now < expires_at e
         ∧ (redis_get r now (cache_key u) = Ok None → expires_at e = now + 3600)
         ∧ ∀ service' now' n',
             now' < expires_at e →
             get_recommendations service' r' now' u n' = (r', Ok resp).
Proof.
  intros H. split; [intros u'; apply cache_key_inj|].
  apply get_recommendations_entry in H as (Hup & e & He & Hv & Hlive & Httl).
  exists e. split_and!; [done..|].
  intros service' now' n' Hnow'.
  apply get_recommendations_hit, redis_get_hit.
  split; [done|]. by exists e.
Qed.

Lemma cache_is_keyed_by_user_alone_witness :
  (∀ u', cache_key u' = cache_key 1 → u' = 1)
  ∧ ∃ e, entries (get_recommendations sample_service empty_store 0 1 5).1 !! cache_key 1
         = Some e
         ∧ value e
           = {| user_id := 1;
                recommendations :=
                  [ {| item_id := 102; item_name := "books scifi" |};
                    {| item_id := 201; item_name := "toys kids" |} ] |}
         ∧ 0 < expires_at e
         ∧ (redis_get empty_store 0 (cache_key 1) = Ok None → expires_at e = 0 + 3600)
         ∧ ∀ service' now' n',
             now' < expires_at e →
             get_recommendations service'
               (get_recommendations sample_service empty_store 0 1 5).1 now' 1 n'
             = ((get_recommendations sample_service empty_store 0 1 5).1,
                Ok {| user_id := 1;
                      recommendations :=
                        [ {| item_id := 102; item_name := "books scifi" |};
                          {| item_id := 201; item_name := "toys kids" |} ] |}).
Proof.
  apply (cache_is_keyed_by_user_alone sample_service empty_store _ 0 1 5).
  reflexivity.
Defined.

(** C6, as the specification states it, fails: a request for user 1 with
    count 1 observes the entry that a request for user 1 with count 5 wrote
    ten seconds earlier; the recommendation service is not asked again. *)
Lemma counts_share_one_entry :
  cache_key 1 = "user_recommendations:1"
  ∧ (get_recommendations sample_service empty_store 0 1 5).2
    = Ok {| user_id := 1;
            recommendations :=
              [ {| item_id := 102; item_name := "books scifi" |};
                {| item_id := 201; item_name := "toys kids" |} ] |}
  ∧ get_recommendations service_down
      (get_recommendations sample_service empty_store 0 1 5).1 10 1 1
    = get_recommendations sample_service empty_store 0 1 5.
Proof. split_and!; reflexivity. Qed.


(** * Further properties of the code *)

(** ** The ranker: which rows are returned *)

Lemma argsort_NoDup (s : vector) : NoDup (argsort s).
Proof. rewrite argsort_perm. apply NoDup_seq. Qed.

Lemma similar_indices_NoDup (s : vector) (K : Z) : NoDup (similar_indices s K).
Proof.
  unfold similar_indices, reversed. rewrite reverse_Permutation.
  destruct (slice_from_drop (- K) (argsort s)) as [k ->].
  pose proof (argsort_NoDup s) as H.
  rewrite <- (take_drop k (argsort s)) in H.
  by apply NoDup_app in H as (_ & _ & ?).
Qed.

(** X1.  Whatever the requested count, a candidate row that is left out of
    the result never has a higher similarity score than a row that is
    returned. *)
Theorem left_out_rows_score_no_higher (user_profile : vector) (tfidf_matrix : matrix)
    (K : Z) (sims : vector) (a b : nat) :
  linear_kernel user_profile tfidf_matrix = Ok sims →
  a ∈ similar_indices sims K →
  (b < length tfidf_matrix)%nat →
  b ∉ similar_indices sims K →
  (score_at sims b <= score_at sims a)%Q.
Proof.
  intros Hsims Ha Hb Hnb.
  apply linear_kernel_Ok in Hsims as [_ Hlen].
  unfold similar_indices, reversed in Ha, Hnb.
  rewrite elem_of_reverse in Ha, Hnb.
  destruct (slice_from_drop (- K) (argsort sims)) as [k Hk].
  rewrite Hk in Ha, Hnb.
  assert (b ∈ take k (argsort sims)) as Hbt.
  { assert (b ∈ argsort sims) as Hin.
    { rewrite argsort_perm, elem_of_seq. lia. }
    rewrite <- (take_drop k (argsort sims)) in Hin.
    apply elem_of_app in Hin as [?|?]; done. }
  pose proof (argsort_sorted sims) as Hsorted.
  rewrite <- (take_drop k (argsort sims)) in Hsorted.
  apply StronglySorted_app in Hsorted as (Hcross & _ & _).
  destruct (Hcross b a Hbt Ha) as [Hlt|[Heq _]].
  - by apply Qlt_le_weak.
  - rewrite Heq. apply Qle_refl.
Qed.

Lemma left_out_rows_score_no_higher_witness :
  (score_at (map (dot [1%Q]) [[1%Q]; [2%Q]]) 0 <= score_at (map (dot [1%Q]) [[1%Q]; [2%Q]]) 1)%Q.
Proof.
  apply (left_out_rows_score_no_higher [1%Q] [[1%Q]; [2%Q]] 1 _ 1%nat 0%nat).
  - reflexivity.
  - vm_compute. apply list_elem_of_singleton. reflexivity.
  - simpl. lia.
  - vm_compute. intros H. apply list_elem_of_singleton in H. discriminate.
Defined.

(** ** The orchestrator: exceptions and success *)

Lemma elem_of_unique_from (seen l : list string) (x : string) :
  x ∈ unique_from seen l ↔ x ∈ l ∧ x ∉ seen.
Proof.
  revert seen. induction l as [|y l IH]; intros seen; simpl.
  - split; [by intros ?%elem_of_nil|]. by intros [?%elem_of_nil _].
  - case_bool_decide as Hy.
    + rewrite IH, elem_of_cons. split.
      * intros [? ?]. split; [by right|done].
      * intros [[->|?] ?]; [done|by split].
    + rewrite elem_of_cons, IH, !elem_of_cons. split.
      * intros [->|[? Hx]].
        -- split; [by left|done].
        -- split; [by right|]. intros ?. apply Hx. by right.
      * intros [[->|?] Hx]; [by left|].
        destruct (decide (x = y)) as [->|Hne]; [by left|right].
        split; [done|]. by intros [?|?].
Qed.

Lemma NoDup_unique_from (seen l : list string) : NoDup (unique_from seen l).
Proof.
  revert seen. induction l as [|y l IH]; intros seen; simpl.
  - constructor.
  - case_bool_decide; [apply IH|].
    constructor; [|apply IH].
    rewrite elem_of_unique_from, elem_of_cons. intros [_ Hy]. apply Hy. by left.
Qed.

Lemma elem_of_unique (l : list string) (x : string) : x ∈ unique l ↔ x ∈ l.
Proof.
  unfold unique. rewrite elem_of_unique_from. split; [by intros [? _]|].
  intros ?. split; [done|]. by intros ?%elem_of_nil.
Qed.

Lemma unique_nonempty (l : list string) : l ≠ [] → unique l ≠ [].
Proof. by destruct l. Qed.

Lemma comprehension_Raise {A B : Type} (f : A → result B) (l : list A) (e : exn) :
  comprehension f l = Raise e → ∃ x, x ∈ l ∧ f x = Raise e.
Proof.
  induction l as [|x l IH]; simpl; [discriminate|].
  destruct (f x) as [y|e'] eqn:Hx.
  - destruct (comprehension f l) as [ys|e'']; [discriminate|].
    intros [= ->]. destruct IH as (x' & ? & ?); [done|].
    exists x'. split; [by right|done].
  - intros [= ->]. exists x. split; [by left|done].
Qed.

Lemma product_mapping_of_None (rows : list InteractionRecord) (f : string) :
  product_mapping_of rows !! f = None →
  Forall (fun row => combined_features row ≠ f) rows.
Proof.
  induction rows as [|r rows IH] using rev_ind; [constructor|].
  rewrite product_mapping_of_snoc.
  destruct (decide (combined_features r = f)) as [<-|Hne].
  - by rewrite lookup_insert_eq.
  - rewrite lookup_insert_ne by done. intros H.
    apply Forall_app. split; [by apply IH|]. by apply Forall_singleton.
Qed.

Lemma product_mapping_of_covers (rows : list InteractionRecord) (f : string) :
  f ∈ unique (map combined_features rows) →
  is_Some (product_mapping_of rows !! f).
Proof.
  rewrite elem_of_unique. intros Hf.
  destruct (product_mapping_of rows !! f) as [pid|] eqn:Hm; [by eexists|].
  apply product_mapping_of_None in Hm.
  apply list_elem_of_In, in_map_iff in Hf as (row & Hrow & Hin).
  rewrite Forall_forall in Hm. destruct (Hm row); [|done].
  by apply list_elem_of_In.
Qed.

Lemma create_user_profile_Raise (V : TfidfVectorizer) (u : Z)
    (rows : list InteractionRecord) (vec : fitted V) (e : exn) :
  create_user_profile V u rows vec = Raise e →
  e = ValueError ∨ e = ZeroDivisionError.
Proof.
  unfold create_user_profile.
  destruct (transform V vec _) as [X|]; simpl; [|intros [= <-]; by left].
  destruct X as [|row X]; simpl; [intros [= <-]; by right|discriminate].
Qed.

Lemma content_recommend_Raise (V : TfidfVectorizer) (rows : list InteractionRecord)
    (u K : Z) (e : exn) :
  content_recommend V (Ok rows) u K = Raise e →
  e = ValueError ∨ e = ZeroDivisionError ∨ e = IndexError.
Proof.
  unfold content_recommend. simpl.
  destruct (fit_transform V _) as [[vec M]|]; simpl; [|intros [= <-]; by left].
  destruct (create_user_profile V u rows vec) as [prof|e'] eqn:Hprof; simpl.
  - unfold recommend_content_based.
    destruct (linear_kernel prof M) as [sims|e''] eqn:Hk; simpl.
    + destruct (comprehension _ _) as [recs|e''] eqn:Hc; simpl; [discriminate|].
      intros [= <-]. apply comprehension_Raise in Hc as (i & _ & Hi).
      unfold getitem, getitem_dict in Hi.
      destruct (unique (map combined_features rows) !! i) as [f|] eqn:Hf; simpl in Hi.
      * destruct (product_mapping_of_covers rows f) as [pid Hpid].
        { by eapply list_elem_of_lookup_2. }
        rewrite Hpid in Hi. discriminate.
      * injection Hi as <-. by right; right.
    + intros [= <-]. left.
      unfold linear_kernel in Hk. destruct M; [by injection Hk|].
      destruct (forallb _ _); [discriminate|by injection Hk].
  - intros [= <-]. apply create_user_profile_Raise in Hprof as [->| ->]; auto.
Qed.

(** X2.  The product mapping the orchestrator builds has an entry for every
    candidate combined-feature string, since both are read off the same
    table; so the lookup of the ranker in this mapping never fails, and the
    orchestrator never ends in a [KeyError]. *)
Theorem mapping_lookup_never_fails (V : TfidfVectorizer) (rows : list InteractionRecord)
    (u K : Z) :
  (∀ f, f ∈ unique (map combined_features rows) →
        is_Some (product_mapping_of rows !! f))
  ∧ content_recommend V (Ok rows) u K ≠ Raise KeyError.
Proof.
  split; [apply product_mapping_of_covers|].
  intros H. apply content_recommend_Raise in H as [H|[H|H]]; discriminate.
Qed.

Lemma names_NoDup (feats : list string) (mapping : gmap string Z)
    (idxs : list nat) (recs : list Recommendation) :
  NoDup feats → NoDup idxs →
  Forall2 (fun i e => feats !! i = Some (item_name e)
                      ∧ mapping !! item_name e = Some (item_id e)) idxs recs →
  NoDup (map item_name recs).
Proof.
  intros Hfeats Hidxs Hall. induction Hall as [|i e idxs recs [Hi _] Hall IH]; simpl.
  - constructor.
  - apply NoDup_cons in Hidxs as [Hnotin Hidxs].
    constructor; [|by apply IH].
    intros Hin. apply list_elem_of_In, in_map_iff in Hin as (e' & Hname & Hin).
    apply list_elem_of_In, list_elem_of_lookup in Hin as [k Hk].
    destruct (Forall2_lookup_r _ _ _ _ _ Hall Hk) as (i' & Hi' & Hf & _).
    rewrite Hname in Hf.
    assert (i = i') as -> by exact (NoDup_lookup feats i i' _ Hfeats Hi Hf).
    apply Hnotin. by eapply list_elem_of_lookup_2.
Qed.

(** X3.  A response never lists the same combined-feature string twice: the
    names of its recommendations are pairwise distinct. *)
Theorem recommendations_are_distinct (V : TfidfVectorizer) (rows : list InteractionRecord)
    (u K : Z) (resp : RecommendationResponse) :
  content_recommend V (Ok rows) u K = Ok resp →
  NoDup (map item_name (recommendations resp)).
Proof.
  intros Hresp.
  apply content_recommend_Ok in Hresp as (_ & vec & M & prof & _ & _ & Hrecs).
  apply recommend_content_based_Ok in Hrecs as (sims & _ & Hall).
  eapply names_NoDup; [| |exact Hall].
  - apply NoDup_unique_from.
  - apply similar_indices_NoDup.
Qed.

Lemma recommendations_are_distinct_witness :
  NoDup (map item_name
           [ {| item_id := 102; item_name := "books scifi" |};
             {| item_id := 201; item_name := "toys kids" |} ]).
Proof.
  apply (recommendations_are_distinct indicator_vectorizer sample_feed 1 5
           {| user_id := 1;
              recommendations :=
                [ {| item_id := 102; item_name := "books scifi" |};
                  {| item_id := 201; item_name := "toys kids" |} ] |}).
  reflexivity.
Defined.

Lemma foldl_zip_with_length (w : nat) (acc : vector) (rows : matrix) :
  length acc = w → Forall (fun row => length row = w) rows →
  length (foldl (zip_with Qplus) acc rows) = w.
Proof.
  intros Hacc Hrows. revert acc Hacc.
  induction Hrows as [|row rows Hrow _ IH]; intros acc Hacc; simpl; [done|].
  apply IH. rewrite length_zip_with. lia.
Qed.

Lemma mean_axis0_Ok (w : nat) (M : matrix) :
  M ≠ [] → Forall (fun row => length row = w) M →
  ∃ v, mean_axis0 M = Ok v ∧ length v = w.
Proof.
  intros Hne Hrows. destruct M as [|row rows]; [done|].
  apply Forall_cons in Hrows as [Hrow Hrows].
  eexists. split; [reflexivity|].
  apply foldl_zip_with_length.
  - by rewrite length_map.
  - apply Forall_forall. intros r Hr.
    apply list_elem_of_In, in_map_iff in Hr as (r' & <- & Hr').
    rewrite length_map. rewrite Forall_forall in Hrows.
    apply Hrows. by apply list_elem_of_In.
Qed.

Lemma recommend_content_based_total (user_profile : vector) (tfidf_matrix : matrix)
    (K : Z) (feats : list string) (mapping : gmap string Z) :
  tfidf_matrix ≠ [] →
  Forall (fun row => length row = length user_profile) tfidf_matrix →
  length feats = length tfidf_matrix →
  (∀ f, f ∈ feats → is_Some (mapping !! f)) →
  ∃ recs, recommend_content_based user_profile tfidf_matrix K feats mapping = Ok recs
          ∧ length recs
            = length (similar_indices (map (dot user_profile) tfidf_matrix) K).
Proof.
  intros Hne Hrows Hlen Hmap.
  pose proof (linear_kernel_total _ _ Hne Hrows) as Hsims.
  assert (length (map (dot user_profile) tfidf_matrix) = length feats) as Hs.
  { rewrite Hlen. apply length_map. }
  assert (∃ recs, recommend_content_based user_profile tfidf_matrix K feats mapping
                  = Ok recs) as [recs Hrecs].
  { unfold recommend_content_based. rewrite Hsims. simpl.
    apply comprehension_total, Forall_forall. intros i Hi.
    apply similar_indices_bound in Hi. rewrite Hs in Hi.
    destruct (lookup_lt_is_Some_2 feats i Hi) as [f Hf].
    destruct (Hmap f) as [pid Hpid]; [by eapply list_elem_of_lookup_2|].
    unfold getitem, getitem_dict. rewrite Hf. simpl. rewrite Hpid. by eexists. }
  exists recs. split; [done|].
  apply recommend_content_based_Ok in Hrecs as (sims' & Hk & Hall).
  rewrite Hsims in Hk. injection Hk as <-.
  symmetry. by eapply Forall2_length.
Qed.

Lemma indicator_rows_width (vocabulary docs : list string) :
  Forall (fun row => length row = length vocabulary) (map (indicator vocabulary) docs).
Proof.
  apply Forall_forall. intros row Hrow.
  apply list_elem_of_In, in_map_iff in Hrow as (? & <- & _). apply length_map.
Qed.

Lemma indicator_well_shaped : well_shaped indicator_vectorizer.
Proof.
  intros docs m X H. simpl in H.
  assert (m = docs ∧ X = map (indicator docs) docs) as [-> ->].
  { destruct docs; [discriminate|]. by injection H as <- <-. }
  split; [apply length_map|].
  exists (length docs). split; [apply indicator_rows_width|].
  intros docs' X' [= <-]. split; [apply length_map|apply indicator_rows_width].
Qed.

(** ** The cache-aside endpoint: what a request does to the store *)

(** A request either leaves the store as it is, or it was a miss answered
    by the service, and the single change is the entry of the user. *)
Lemma get_recommendations_store (service : Z → list (string * Z) → HttpResponse)
    (r r' : Redis) (now u n : Z) (o : result RecommendationResponse) :
  get_recommendations service r now u n = (r', o) →
  r' = r
  ∨ (redis_get r now (cache_key u) = Ok None
     ∧ setex_fails r = false
     ∧ ∃ body,
         o = Ok body
         ∧ json (service u [("num_recommendations", n)]) = Some body
         ∧ r' = {| entries := <[cache_key u := {| value := body; expires_at := now + 3600 |}]>
                                (entries r);
                   get_fails := get_fails r;
                   setex_fails := setex_fails r |}).
Proof.
  unfold get_recommendations.
  destruct (redis_get r now (cache_key u)) as [[cached|]|e] eqn:Hget;
    [intros [= <- _]; by left| |intros [= <- _]; by left].
  destruct (raise_for_status _) as [[]|[]]; try by (intros [= <- _]; left).
  unfold response_json.
  destruct (json (service u [("num_recommendations", n)])) as [body|] eqn:Hbody;
    [|intros [= <- _]; by left].
  unfold redis_setex. destruct (setex_fails r) eqn:Hset; [intros [= <- _]; by left|].
  intros [= <- <-]. right. split_and!; [done..|]. by exists body.
Qed.

(** X5.  The store is written only by a cache miss that the recommendation
    service answered: a request that ends in an exception, and a request
    served from the cache, leave the store exactly as it was (no error is
    cached, and a hit does not renew the entry). *)
Theorem store_changes_only_on_answered_miss
    (service : Z → list (string * Z) → HttpResponse)
    (r r' : Redis) (now u n : Z) (o : result RecommendationResponse) :
  get_recommendations service r now u n = (r', o) →
  r' ≠ r →
  redis_get r now (cache_key u) = Ok None
  ∧ ∃ body, o = Ok body
            ∧ entries r' !! cache_key u
              = Some {| value := body; expires_at := now + 3600 |}.
Proof.
  intros H Hne.
  apply get_recommendations_store in H as [->|(Hmiss & _ & body & -> & _ & ->)]; [done|].
  split; [done|]. exists body. split; [done|]. simpl. apply lookup_insert_eq.
Qed.

Lemma store_changes_only_on_answered_miss_witness :
  redis_get empty_store 0 (cache_key 1) = Ok None
  ∧ ∃ body, (get_recommendations sample_service empty_store 0 1 5).2 = Ok body
            ∧ entries (get_recommendations sample_service empty_store 0 1 5).1
                !! cache_key 1
              = Some {| value := body; expires_at := 0 + 3600 |}.
Proof.
  apply (store_changes_only_on_answered_miss sample_service empty_store
           (get_recommendations sample_service empty_store 0 1 5).1 0 1 5
           (get_recommendations sample_service empty_store 0 1 5).2).
  - reflexivity.
  - intros H. apply (f_equal (fun s => entries s !! cache_key 1)) in H.
    vm_compute in H. discriminate H.
Defined.

(** X6.  A request for one user never touches the cache entry of another
    user, nor the availability of the store. *)
Theorem other_users_entries_untouched (service : Z → list (string * Z) → HttpResponse)
    (r r' : Redis) (now u n : Z) (o : result RecommendationResponse) (u' : Z) :
  get_recommendations service r now u n = (r', o) →
  u' ≠ u →
  entries r' !! cache_key u' = entries r !! cache_key u'
  ∧ get_fails r' = get_fails r
  ∧ setex_fails r' = setex_fails r.
Proof.
  intros H Hne.
  apply get_recommendations_store in H as [->|(_ & _ & body & _ & _ & ->)]; [done|].
  simpl. split; [|done].
  apply lookup_insert_ne. intros Hkey. apply Hne. by apply cache_key_inj.
Qed.

Lemma other_users_entries_untouched_witness :
  entries (get_recommendations sample_service empty_store 0 1 5).1 !! cache_key 2
  = entries empty_store !! cache_key 2
  ∧ get_fails (get_recommendations sample_service empty_store 0 1 5).1
    = get_fails empty_store
  ∧ setex_fails (get_recommendations sample_service empty_store 0 1 5).1
    = setex_fails empty_store.
Proof.
  apply (other_users_entries_untouched sample_service empty_store
           (get_recommendations sample_service empty_store 0 1 5).1 0 1 5
           (get_recommendations sample_service empty_store 0 1 5).2 2).
  - apply surjective_pairing.
  - lia.
Defined.

(** X7.  An entry written by a miss at time T is served, unchanged and
    without asking the recommendation service, to every request for the user
    at a time in [T, T + 3600); from T + 3600 on it is absent, and a request
    that the service answers returns the fresh answer. *)
Theorem entry_lives_3600_seconds (service : Z → list (string * Z) → HttpResponse)
    (r r' : Redis) (now u n : Z) (resp : RecommendationResponse) :
  get_recommendations service r now u n = (r', Ok resp) →
  redis_get r now (cache_key u) = Ok None →
  (∀ service' t n', now ≤ t < now + 3600 →
     get_recommendations service' r' t u n' = (r', Ok resp))
  ∧ (∀ t, now + 3600 ≤ t → redis_get r' t (cache_key u) = Ok None)
  ∧ (∀ service' t n' body,
       now + 3600 ≤ t →
       service' u [("num_recommendations", n')]
       = {| status_code := 200; json := Some body |} →
       (get_recommendations service' r' t u n').2 = Ok body).
Proof.
  intros H Hmiss.
  pose proof (get_recommendations_entry _ _ _ _ _ _ _ H)
    as (Hup & e & He & Hv & Hlive & Httl).
  specialize (Httl Hmiss).
  assert (setex_fails r' = false) as Hset.
  { apply get_recommendations_store in H as [Heq|(_ & Hset & body & _ & _ & Heq)];
      [|by rewrite Heq].
    rewrite Heq in Hup, He.
    assert (redis_get r now (cache_key u) = Ok (Some resp)) as Hhit.
    { apply redis_get_hit. split; [done|]. by exists e. }
    rewrite Hmiss in Hhit. discriminate. }
  assert (∀ t, now + 3600 ≤ t → redis_get r' t (cache_key u) = Ok None) as Hgone.
  { intros t Ht. unfold redis_get. rewrite Hup, He.
    destruct (Z.ltb_spec t (expires_at e)); [lia|done]. }
  split_and!; [|done|].
  - intros service' t n' Ht.
    apply get_recommendations_hit, redis_get_hit.
    split; [done|]. exists e. split_and!; [done|lia|done].
  - intros service' t n' body Ht Hsvc.
    unfold get_recommendations. rewrite (Hgone t Ht), Hsvc. simpl.
    unfold redis_setex. by rewrite Hset.
Qed.

Lemma entry_lives_3600_seconds_witness :
  (∀ service' t n', 0 ≤ t < 0 + 3600 →
     get_recommendations service'
       (get_recommendations sample_service empty_store 0 1 5).1 t 1 n'
     = ((get_recommendations sample_service empty_store 0 1 5).1,
        Ok {| user_id := 1;
              recommendations :=
                [ {| item_id := 102; item_name := "books scifi" |};
                  {| item_id := 201; item_name := "toys kids" |} ] |}))
  ∧ (∀ t, 0 + 3600 ≤ t →
       redis_get (get_recommendations sample_service empty_store 0 1 5).1 t (cache_key 1)
       = Ok None)
  ∧ (∀ service' t n' body,
       0 + 3600 ≤ t →
       service' 1 [("num_recommendations", n')]
       = {| status_code := 200; json := Some body |} →
       (get_recommendations service'
          (get_recommendations sample_service empty_store 0 1 5).1 t 1 n').2 = Ok body).
Proof.
  apply (entry_lives_3600_seconds sample_service empty_store
           (get_recommendations sample_service empty_store 0 1 5).1 0 1 5).
  - reflexivity.
  - reflexivity.
Defined.

(** X8.  When the interaction feed cannot be fetched, the recommendation
    service answers 500 whatever the user and the count, and on a cache miss
    the client-facing endpoint answers 500 as well and stores nothing. *)
Theorem feed_failure_is_status_500 (V : TfidfVectorizer) (e : exn)
    (r : Redis) (now u n : Z) :
  (∀ s, e ≠ HTTPException s) →
  redis_get r now (cache_key u) = Ok None →
  (∀ params, status_code (serve V (Raise e) u params) = 500)
  ∧ get_recommendations (serve V (Raise e)) r now u n = (r, Raise (HTTPException 500)).
Proof.
  intros He Hmiss.
  assert (∀ params, status_code (serve V (Raise e) u params) = 500) as Hserve.
  { intros params. unfold serve. simpl. destruct e as [| | | | | |s]; try done.
    by destruct (He s). }
  split; [done|].
  rewrite get_recommendations_upstream_error; [|done|rewrite Hserve; lia].
  by rewrite Hserve.
Qed.

Lemma feed_failure_is_status_500_witness :
  (∀ params,
     status_code (serve indicator_vectorizer (Raise (HTTPStatusError 503)) 1 params) = 500)
  ∧ get_recommendations (serve indicator_vectorizer (Raise (HTTPStatusError 503)))
      empty_store 0 1 5
    = (empty_store, Raise (HTTPException 500)).
Proof.
  apply (feed_failure_is_status_500 indicator_vectorizer (HTTPStatusError 503)
           empty_store 0 1 5).
  - intros s. discriminate.
  - reflexivity.
Defined.

(** ** The interaction feed of [user_service.py] *)

Import user_service db_filler.

Lemma count_char_app (c : ascii) (s t : string) :
  count_char c (s +:+ t) = (count_char c s + count_char c t)%nat.
Proof. induction s as [|a s IH]; simpl; [done|]. rewrite IH. lia. Qed.

Lemma pretty_N_go_count (c : ascii) (x : N) (s : string) :
  (∀ d, pretty_N_char d ≠ c) →
  count_char c (pretty_N_go x s) = count_char c s.
Proof.
  intros Hc. revert s. induction (N.lt_wf_0 x) as [x _ IH]; intros s.
  assert (x = 0 ∨ 0 < x)%N as [->|Hx] by lia.
  - by rewrite pretty_N_go_0.
  - rewrite pretty_N_go_step by done.
    rewrite IH by (by apply N.div_lt). simpl.
    destruct (decide (pretty_N_char (x `mod` 10) = c)) as [Heq|_]; [|done].
    by destruct (Hc (x `mod` 10)%N).
Qed.

Lemma pretty_N_count (c : ascii) (x : N) :
  (∀ d, pretty_N_char d ≠ c) → count_char c (pretty x) = 0%nat.
Proof.
  intros Hc. unfold pretty, pretty_N. case_decide.
  - simpl. destruct (decide ("0"%char = c)) as [Heq|_]; [|done].
    by destruct (Hc 0%N).
  - by rewrite pretty_N_go_count.
Qed.

(** The decimal rendering of an integer holds digits and at most a sign. *)
Lemma pretty_Z_count (c : ascii) (z : Z) :
  (∀ d, pretty_N_char d ≠ c) → c ≠ "-"%char → count_char c (pretty z) = 0%nat.
Proof.
  intros Hc Hdash. unfold pretty, pretty_Z. destruct z as [|x|x].
  - simpl. destruct (decide ("0"%char = c)) as [Heq|_]; [|done].
    by destruct (Hc 0%N).
  - by apply pretty_N_count.
  - rewrite count_char_app. simpl.
    destruct (decide ("-"%char = c)) as [Heq|_]; [by destruct Hdash|].
    simpl. by apply (pretty_N_count c (N.pos x)).
Qed.

Lemma semicolon_not_a_digit (d : N) : pretty_N_char d ≠ ";"%char.
Proof. unfold pretty_N_char. repeat case_match; discriminate. Qed.

Lemma line_feed_not_a_digit (d : N) : pretty_N_char d ≠ "010"%char.
Proof. unfold pretty_N_char. repeat case_match; discriminate. Qed.

(** The occurrences of a character in the eight text fields of a feed row. *)
Lemma count_char_line (c : ascii) (item : InteractionRecord) :
  (∀ d, pretty_N_char d ≠ c) → c ≠ "-"%char →
  count_char c (line item)
  = ((if decide (";"%char = c) then 10 else 0)
     + (if decide ("010"%char = c) then 1 else 0)
     + (count_char c (col_name item) + count_char c (col_gender item)
        + count_char c (col_location item) + count_char c (col_preferences item)
        + count_char c (col_category item) + count_char c (col_product_name item)
        + count_char c (col_description item) + count_char c (col_tags item)))%nat.
Proof.
  intros Hc Hdash. unfold line, values. simpl String.concat.
  change (?a ++ ?b)%string with (a +:+ b).
  rewrite !count_char_app, !pretty_Z_count by done. simpl.
  destruct (decide (";"%char = c)); destruct (decide ("010"%char = c)); lia.
Qed.

(** X9.  A line of the interaction feed holds ten separators and one line
    feed of its own, plus every [;] and every line feed that occurs in one
    of its eight text fields: the numeric fields contribute none, and text
    fields are written as they are, neither quoted nor escaped. *)
Theorem feed_line_separators (item : InteractionRecord) :
  count_char ";" (line item)
  = (10 + (count_char ";" (col_name item) + count_char ";" (col_gender item)
           + count_char ";" (col_location item) + count_char ";" (col_preferences item)
           + count_char ";" (col_category item) + count_char ";" (col_product_name item)
           + count_char ";" (col_description item) + count_char ";" (col_tags item)))%nat
  ∧ count_char "010" (line item)
    = (1 + (count_char "010" (col_name item) + count_char "010" (col_gender item)
            + count_char "010" (col_location item)
            + count_char "010" (col_preferences item)
            + count_char "010" (col_category item)
            + count_char "010" (col_product_name item)
            + count_char "010" (col_description item)
            + count_char "010" (col_tags item)))%nat.
Proof.
  split.
  - rewrite (count_char_line ";") by (apply semicolon_not_a_digit || discriminate).
    done.
  - rewrite (count_char_line "010") by (apply line_feed_not_a_digit || discriminate).
    done.
Qed.

(** ** The collections: [find_one], [delete_one] and the join *)

Section Collection.
Context {D : Type} (field : D → Z).

Lemma find_one_head (v : Z) (l : list D) :
  find_one field v l = head (filter (fun d => field d = v) l).
Proof.
  unfold find_one. induction l as [|d l IH]; [done|].
  simpl. destruct (decide (field d = v)) as [Hd|Hd].
  - by rewrite filter_cons_True.
  - rewrite filter_cons_False by done. rewrite <- IH.
    by destruct (list_find _ l) as [[? ?]|].
Qed.

Lemma filter_none (v : Z) (l : list D) :
  v ∉ (field <$> l) → filter (fun d => field d = v) l = [].
Proof.
  induction l as [|d l IH]; [done|]. rewrite fmap_cons, not_elem_of_cons.
  intros [Hd Hl]. rewrite filter_cons_False by done. by apply IH.
Qed.

Lemma find_one_None (v : Z) (l : list D) :
  find_one field v l = None ↔ v ∉ (field <$> l).
Proof.
  rewrite find_one_head. split.
  - intros Hhead Hin. apply list_elem_of_fmap in Hin as (d & -> & Hd).
    assert (d ∈ filter (fun d' => field d' = field d) l) as Hf.
    { by apply list_elem_of_filter. }
    destruct (filter _ l); [by apply elem_of_nil in Hf|discriminate].
  - intros Hv. by rewrite filter_none.
Qed.

Lemma find_one_Some (v : Z) (l : list D) (d : D) :
  find_one field v l = Some d → d ∈ l ∧ field d = v.
Proof.
  rewrite find_one_head. intros Hhead.
  assert (d ∈ filter (fun d' => field d' = v) l) as Hf.
  { destruct (filter _ l) as [|d' l']; [discriminate|].
    injection Hhead as ->. by left. }
  apply list_elem_of_filter in Hf as [? ?]. done.
Qed.

(** With unique values of the field, the documents of one value are one. *)
Lemma filter_unique (v : Z) (l : list D) :
  NoDup (field <$> l) → v ∈ (field <$> l) →
  ∃ d, filter (fun d' => field d' = v) l = [d] ∧ find_one field v l = Some d.
Proof.
  intros Hnd Hin. rewrite find_one_head.
  induction l as [|d l IH]; [by apply elem_of_nil in Hin|].
  rewrite fmap_cons in Hnd, Hin. apply NoDup_cons in Hnd as [Hd Hnd].
  destruct (decide (field d = v)) as [<-|Hne].
  - exists d. rewrite filter_cons_True by done. by rewrite filter_none.
  - rewrite filter_cons_False by done. apply IH; [done|].
    apply elem_of_cons in Hin as [Heq|?]; [congruence|done].
Qed.

Lemma delete_one_spec (v : Z) (l l' : list D) (n : Z) :
  delete_one field v l = (l', n) →
  (n = 0 ∧ l' = l ∧ (v ∉ (field <$> l)))
  ∨ (n = 1 ∧ ∃ before d after,
               l = before ++ d :: after ∧ field d = v
               ∧ (v ∉ (field <$> before)) ∧ l' = before ++ after).
Proof.
  revert l' n. induction l as [|d l IH]; intros l' n; simpl.
  - intros [= <- <-]. left. split_and!; [done..|]. apply not_elem_of_nil.
  - destruct (decide (field d = v)) as [Hd|Hd].
    + intros [= <- <-]. right. split; [done|].
      exists [], d, l. split_and!; [done..|apply not_elem_of_nil|done].
    + destruct (delete_one field v l) as [rest k] eqn:Hrest.
      intros [= <- <-].
      destruct (IH rest k eq_refl) as [(-> & -> & Hv)|(-> & b & x & a & -> & Hx & Hb & ->)].
      * left. split_and!; [done..|]. rewrite ?fmap_cons, not_elem_of_cons. done.
      * right. split; [done|]. exists (d :: b), x, a.
        split_and!; [done..| |done].
        rewrite ?fmap_cons, not_elem_of_cons. done.
Qed.

End Collection.

Lemma elem_of_aggregate (db : Db) (r : InteractionRecord) :
  r ∈ aggregate db ↔
  ∃ p u i, p ∈ purchases db
           ∧ u ∈ users db ∧ u_user_id u = p_user_id p
           ∧ i ∈ items db ∧ i_product_id i = p_product_id p
           ∧ r = project p u i.
Proof.
  unfold aggregate. rewrite list_elem_of_bind. split.
  - intros (p & Hr & Hp). apply list_elem_of_bind in Hr as (u & Hr & Hu).
    apply list_elem_of_bind in Hr as (i & Hr & Hi).
    apply list_elem_of_singleton in Hr.
    apply list_elem_of_filter in Hu as [? ?].
    apply list_elem_of_filter in Hi as [? ?].
    by exists p, u, i.
  - intros (p & u & i & Hp & Hu & Hup & Hi & Hip & ->).
    exists p. split; [|done].
    apply list_elem_of_bind. exists u. split; [|by apply list_elem_of_filter].
    apply list_elem_of_bind. exists i. split; [|by apply list_elem_of_filter].
    by apply list_elem_of_singleton.
Qed.

Lemma aggregate_row_ids (db : Db) (r : InteractionRecord) :
  r ∈ aggregate db →
  col_user_id r ∈ (u_user_id <$> users db)
  ∧ col_product_id r ∈ (i_product_id <$> items db).
Proof.
  intros (p & u & i & _ & Hu & Hup & Hi & Hip & ->)%elem_of_aggregate. simpl. split.
  - rewrite <- Hup. by apply list_elem_of_fmap_2.
  - rewrite <- Hip. by apply list_elem_of_fmap_2.
Qed.

(** X10.  The interaction feed never mentions a user id without a stored
    user, nor a product id without a stored item: a purchase whose user or
    item is missing contributes no row. *)
Theorem feed_rows_have_user_and_item (db : Db) :
  Forall (fun r => col_user_id r ∈ (u_user_id <$> users db)
                   ∧ col_product_id r ∈ (i_product_id <$> items db))
    (aggregate db).
Proof. apply Forall_forall. intros r. apply aggregate_row_ids. Qed.

Lemma rows_of_purchase (db : Db) (p : PurchaseData) :
  NoDup (u_user_id <$> users db) →
  NoDup (i_product_id <$> items db) →
  p_user_id p ∈ (u_user_id <$> users db) →
  p_product_id p ∈ (i_product_id <$> items db) →
  ∃ u i,
    find_one u_user_id (p_user_id p) (users db) = Some u
    ∧ find_one i_product_id (p_product_id p) (items db) = Some i
    ∧ (u' ← filter (fun u' => u_user_id u' = p_user_id p) (users db);
       i' ← filter (fun i' => i_product_id i' = p_product_id p) (items db);
       [project p u' i']) = [project p u i].
Proof.
  intros Hu Hi Hpu Hpi.
  destruct (filter_unique u_user_id _ _ Hu Hpu) as (u & Hfu & Hou).
  destruct (filter_unique i_product_id _ _ Hi Hpi) as (i & Hfi & Hoi).
  exists u, i. split_and!; [done..|].
  rewrite Hfu, bind_singleton, Hfi, bind_singleton. done.
Qed.

(** X11.  In a store with unique user ids and unique product ids whose
    purchases all refer to a stored user and a stored item, the feed has
    exactly one row per purchase, in the order of the purchases, and the row
    of a purchase is its projection with the user and the item of its ids. *)
Theorem feed_one_row_per_purchase (db : Db) :
  consistent db →
  Forall2
    (fun p r =>
       ∃ u i, find_one u_user_id (p_user_id p) (users db) = Some u
              ∧ find_one i_product_id (p_product_id p) (items db) = Some i
              ∧ r = project p u i)
    (purchases db) (aggregate db).
Proof.
  intros (Hu & Hi & Hrefs). unfold aggregate.
  induction Hrefs as [|p ps [Hpu Hpi] _ IH]; [constructor|].
  rewrite bind_cons.
  destruct (rows_of_purchase db p Hu Hi Hpu Hpi) as (u & i & Hfu & Hfi & ->).
  constructor; [|exact IH]. by exists u, i.
Qed.

Lemma sample_db_consistent : consistent sample_db.
Proof. apply (bool_decide_unpack _). vm_compute. exact I. Qed.

Lemma feed_one_row_per_purchase_witness :
  Forall2
    (fun p r =>
       ∃ u i, find_one u_user_id (p_user_id p) (users sample_db) = Some u
              ∧ find_one i_product_id (p_product_id p) (items sample_db) = Some i
              ∧ r = project p u i)
    (purchases sample_db) (aggregate sample_db).
Proof.
  apply (feed_one_row_per_purchase sample_db).
  apply (bool_decide_unpack _). vm_compute. exact I.
Defined.

(** ** The handlers of the user and purchase endpoints *)

Lemma delete_user_cases (db db' : Db) (user_id : Z) (o : result string) :
  delete_user db user_id = (db', o) →
  purchases db' = purchases db
  ∧ items db' = items db
  ∧ ((o = Raise (HTTPException 404) ∧ db' = db
      ∧ user_id ∉ (u_user_id <$> users db))
     ∨ (o = Ok "User deleted successfully"
        ∧ ∃ before d after,
            users db = before ++ d :: after
            ∧ u_user_id d = user_id
            ∧ (user_id ∉ (u_user_id <$> before))
            ∧ users db' = before ++ after)).
Proof.
  unfold delete_user.
  destruct (delete_one u_user_id user_id (users db)) as [users' n] eqn:Hdel.
  apply delete_one_spec in Hdel
    as [(-> & -> & Hv)|(-> & before & d & after & Hus & Hd & Hb & ->)]; simpl.
  - intros [= <- <-]. split_and!; [done..|]. left. split_and!; [done| |done].
    by destruct db.
  - intros [= <- <-]. split_and!; [done..|]. right. split; [done|].
    by exists before, d, after.
Qed.

(** X12.  [delete_user] answers 404 and changes nothing when no stored user
    has the id; otherwise it removes exactly the first stored user with the
    id.  In both cases the purchases and the items are kept: the purchases
    of a deleted user stay in the store. *)
Theorem delete_user_removes_first_match (db db' : Db) (user_id : Z) (o : result string) :
  delete_user db user_id = (db', o) →
  purchases db' = purchases db
  ∧ items db' = items db
  ∧ ((http_status o = 404 ∧ db' = db ∧ user_id ∉ (u_user_id <$> users db))
     ∨ (http_status o = 200
        ∧ ∃ before d after,
            users db = before ++ d :: after
            ∧ u_user_id d = user_id
            ∧ (user_id ∉ (u_user_id <$> before))
            ∧ users db' = before ++ after)).
Proof.
  intros H. apply delete_user_cases in H as (Hp & Hi & [(-> & ? & ?)|(-> & ?)]).
  - split_and!; [done..|]. by left.
  - split_and!; [done..|]. by right.
Qed.

Lemma delete_user_removes_first_match_witness :
  purchases (delete_user sample_db 1).1 = purchases sample_db
  ∧ items (delete_user sample_db 1).1 = items sample_db
  ∧ ((http_status (delete_user sample_db 1).2 = 404
      ∧ (delete_user sample_db 1).1 = sample_db
      ∧ 1 ∉ (u_user_id <$> users sample_db))
     ∨ (http_status (delete_user sample_db 1).2 = 200
        ∧ ∃ before d after,
            users sample_db = before ++ d :: after
            ∧ u_user_id d = 1
            ∧ (1 ∉ (u_user_id <$> before))
            ∧ users (delete_user sample_db 1).1 = before ++ after)).
Proof.
  apply (delete_user_removes_first_match sample_db (delete_user sample_db 1).1 1
           (delete_user sample_db 1).2).
  apply surjective_pairing.
Defined.

(** X13.  With unique user ids, after [delete_user] (whatever it answers)
    the interaction feed holds no row of that user, although the purchases
    of the user are still stored. *)
Theorem deleted_user_leaves_the_feed (db db' : Db) (user_id : Z) (o : result string) :
  NoDup (u_user_id <$> users db) →
  delete_user db user_id = (db', o) →
  purchases db' = purchases db
  ∧ Forall (fun r => col_user_id r ≠ user_id) (aggregate db').
Proof.
  intros Hnd H.
  apply delete_user_cases in H
    as (Hp & _ & [(_ & -> & Hv)|(_ & before & d & after & Hus & Hd & Hb & Hus')]).
  - split; [done|]. apply Forall_forall. intros r [Hr _]%aggregate_row_ids.
    by intros <-.
  - split; [done|]. apply Forall_forall. intros r [Hr _]%aggregate_row_ids.
    intros <-. rewrite Hus' in Hr. rewrite Hus in Hnd.
    rewrite fmap_app, fmap_cons in Hnd.
    apply NoDup_app in Hnd as (_ & Hcross & Hnd).
    apply NoDup_cons in Hnd as [Hd' _].
    rewrite fmap_app in Hr. apply elem_of_app in Hr as [Hr|Hr]; [done|].
    rewrite Hd in Hd'. done.
Qed.

Lemma deleted_user_leaves_the_feed_witness :
  purchases (delete_user sample_db 1).1 = purchases sample_db
  ∧ Forall (fun r => col_user_id r ≠ 1) (aggregate (delete_user sample_db 1).1).
Proof.
  apply (deleted_user_leaves_the_feed sample_db (delete_user sample_db 1).1 1
           (delete_user sample_db 1).2).
  - apply (bool_decide_unpack _). vm_compute. exact I.
  - apply surjective_pairing.
Defined.

Lemma delete_one_snoc_fresh {D : Type} (field : D → Z) (l : list D) (d : D) :
  field d ∉ (field <$> l) → delete_one field (field d) (l ++ [d]) = (l, 1).
Proof.
  induction l as [|x l IH]; simpl.
  - intros _. by rewrite decide_True.
  - rewrite not_elem_of_cons. intros [Hx Hl].
    rewrite decide_False by done. by rewrite IH.
Qed.

(** X14.  Creating a user whose id is not stored yet and deleting that id
    again gives back the store as it was. *)
Theorem create_then_delete_user (db : Db) (user_data : UserData) :
  u_user_id user_data ∉ (u_user_id <$> users db) →
  delete_user (create_user db user_data).1 (u_user_id user_data)
  = (db, Ok "User deleted successfully").
Proof.
  intros Hfresh. unfold delete_user, create_user. simpl.
  rewrite delete_one_snoc_fresh by done. simpl. by destruct db.
Qed.

Lemma create_then_delete_user_witness :
  delete_user
    (create_user sample_db
       {| u_user_id := 3; u_name := "Cy"; u_age := 20; u_gender := "x";
          u_location := "Lima"; u_preferences := "games" |}).1 3
  = (sample_db, Ok "User deleted successfully").
Proof.
  apply (create_then_delete_user sample_db
           {| u_user_id := 3; u_name := "Cy"; u_age := 20; u_gender := "x";
              u_location := "Lima"; u_preferences := "games" |}).
  apply (bool_decide_unpack _). vm_compute. exact I.
Defined.

(** X15.  In a store with unique ids, recording a purchase of a stored user
    and a stored item appends exactly one row to the feed, the projection of
    the purchase with that user and that item; the rows before it are
    unchanged. *)
Theorem create_purchase_appends_one_row (db : Db) (purchase_data : PurchaseData)
    (u : UserData) (i : ItemData) :
  NoDup (u_user_id <$> users db) →
  NoDup (i_product_id <$> items db) →
  find_one u_user_id (p_user_id purchase_data) (users db) = Some u →
  find_one i_product_id (p_product_id purchase_data) (items db) = Some i →
  aggregate (create_purchase db purchase_data).1
  = aggregate db ++ [project purchase_data u i].
Proof.
  intros Hu Hi Hfu Hfi. unfold aggregate, create_purchase. simpl.
  rewrite bind_app, bind_singleton. f_equal.
  apply find_one_Some in Hfu as Hu'. destruct Hu' as [Hu1 Hu2].
  apply find_one_Some in Hfi as Hi'. destruct Hi' as [Hi1 Hi2].
  destruct (rows_of_purchase db purchase_data Hu Hi) as (u' & i' & Hfu' & Hfi' & ->).
  - rewrite <- Hu2. by apply list_elem_of_fmap_2.
  - rewrite <- Hi2. by apply list_elem_of_fmap_2.
  - congruence.
Qed.

(** X16.  A purchase of a user id or a product id that is not stored is
    recorded all the same, and adds nothing to the feed. *)
Theorem create_purchase_of_unknown_adds_no_row (db : Db) (purchase_data : PurchaseData) :
  p_user_id purchase_data ∉ (u_user_id <$> users db)
  ∨ p_product_id purchase_data ∉ (i_product_id <$> items db) →
  create_purchase db purchase_data
  = ({| users := users db; purchases := purchases db ++ [purchase_data];
        items := items db |}, Ok "Purchase recorded successfully")
  ∧ aggregate (create_purchase db purchase_data).1 = aggregate db.
Proof.
  intros Hmissing. split; [done|].
  unfold aggregate, create_purchase. simpl.
  rewrite bind_app, bind_singleton.
  destruct Hmissing as [Hu|Hi].
  - rewrite (filter_none u_user_id) by done. simpl. by rewrite app_nil_r.
  - rewrite (filter_none i_product_id _ (items db)) by done.
    assert (∀ l : list UserData,
              (u' ← l; (i' ← ([] : list ItemData); [project purchase_data u' i'])) = [])
      as ->; [|by rewrite app_nil_r].
    induction l as [|x l IH]; [done|]. by rewrite bind_cons, IH.
Qed.

Lemma create_purchase_appends_one_row_witness :
  aggregate
    (create_purchase sample_db
       {| p_purchase_id := 7; p_product_id := 101; p_user_id := 2; p_quantity := 1;
          p_price := 5%Q; p_timestamp := "t" |}).1
  = aggregate sample_db
    ++ [ project
           {| p_purchase_id := 7; p_product_id := 101; p_user_id := 2; p_quantity := 1;
              p_price := 5%Q; p_timestamp := "t" |}
           {| u_user_id := 2; u_name := "Bob"; u_age := 41; u_gender := "m";
              u_location := "Rome"; u_preferences := "toys" |}
           {| i_product_id := 101; i_category := "books"; i_product_name := "Dune";
              i_description := "a novel"; i_tags := "scifi" |} ].
Proof.
  apply (create_purchase_appends_one_row sample_db).
  - apply (bool_decide_unpack _). vm_compute. exact I.
  - apply (bool_decide_unpack _). vm_compute. exact I.
  - reflexivity.
  - reflexivity.
Defined.

Lemma create_purchase_of_unknown_adds_no_row_witness :
  create_purchase sample_db
    {| p_purchase_id := 8; p_product_id := 101; p_user_id := 9; p_quantity := 1;
       p_price := 5%Q; p_timestamp := "t" |}
  = ({| users := users sample_db;
        purchases :=
          purchases sample_db
          ++ [ {| p_purchase_id := 8; p_product_id := 101; p_user_id := 9;
                  p_quantity := 1; p_price := 5%Q; p_timestamp := "t" |} ];
        items := items sample_db |}, Ok "Purchase recorded successfully")
  ∧ aggregate
      (create_purchase sample_db
         {| p_purchase_id := 8; p_product_id := 101; p_user_id := 9; p_quantity := 1;
            p_price := 5%Q; p_timestamp := "t" |}).1
    = aggregate sample_db.
Proof.
  apply (create_purchase_of_unknown_adds_no_row sample_db).
  left. apply (bool_decide_unpack _). vm_compute. exact I.
Defined.

(** ** The import script of [db_filler.py] *)

Lemma find_one_app_l {D : Type} (field : D → Z) (v : Z) (l k : list D) (d : D) :
  find_one field v l = Some d → find_one field v (l ++ k) = Some d.
Proof.
  rewrite !find_one_head, filter_app.
  by destruct (filter _ l).
Qed.

Section ScriptProperties.
Variable int : string → option Z.
Variable randint : nat → Z → Z → Z.
Variable utcnow : nat → string.

Lemma user_data_of_Ok (row : list string) (user_data : UserData) :
  user_data_of int row = Ok user_data →
  int_at int row 0 = Ok (u_user_id user_data).
Proof.
  unfold user_data_of.
  destruct (int_at int row 0) as [user_id|]; simpl; [|discriminate].
  destruct (getitem row 1); simpl; [|discriminate].
  destruct (int_at int row 2); simpl; [|discriminate].
  destruct (getitem row 3); simpl; [|discriminate].
  destruct (getitem row 4); simpl; [|discriminate].
  destruct (getitem row 5); simpl; [|discriminate].
  by intros [= <-].
Qed.

Lemma item_data_of_Ok (row : list string) (item_data : ItemData) :
  item_data_of int row = Ok item_data →
  int_at int row 6 = Ok (i_product_id item_data).
Proof.
  unfold item_data_of.
  destruct (int_at int row 6) as [product_id|]; simpl; [|discriminate].
  destruct (getitem row 7); simpl; [|discriminate].
  destruct (getitem row 8); simpl; [|discriminate].
  destruct (getitem row 9); simpl; [|discriminate].
  destruct (getitem row 10); simpl; [|discriminate].
  by intros [= <-].
Qed.

(** What one pass of the loop body does to the three collections. *)
Lemma import_row_spec (k : nat) (db db' : Db) (row : list string) (o : result unit) :
  import_row int randint utcnow k db row = (db', o) →
  ∃ us its ps,
    users db' = users db ++ us
    ∧ items db' = items db ++ its
    ∧ purchases db' = purchases db ++ ps
    ∧ (us = [] ∨ ∃ u, us = [u] ∧ u_user_id u ∉ (u_user_id <$> users db))
    ∧ (its = [] ∨ ∃ i, its = [i] ∧ i_product_id i ∉ (i_product_id <$> items db))
    ∧ match o with
      | Ok _ =>
          ∃ p, ps = [p]
               ∧ int_at int row 0 = Ok (p_user_id p)
               ∧ int_at int row 6 = Ok (p_product_id p)
               ∧ p_user_id p ∈ (u_user_id <$> users db')
               ∧ p_product_id p ∈ (i_product_id <$> items db')
      | Raise _ => ps = []
      end.
Proof.
  unfold import_row.
  destruct (user_data_of int row) as [user_data|e] eqn:Hud.
  2:{ intros [= <- <-]. exists [], [], []. rewrite !app_nil_r. split_and!; auto. }
  apply user_data_of_Ok in Hud.
  set (db1 := match find_one u_user_id (u_user_id user_data) (users db) with
              | Some _ => db
              | None => {| users := users db ++ [user_data];
                           purchases := purchases db; items := items db |}
              end).
  assert (∃ us, users db1 = users db ++ us
                ∧ items db1 = items db ∧ purchases db1 = purchases db
                ∧ (us = [] ∨ ∃ u, us = [u] ∧ u_user_id u ∉ (u_user_id <$> users db))
                ∧ u_user_id user_data ∈ (u_user_id <$> users db1))
    as (us & Hus & Hits1 & Hps1 & Hfresh & Huin).
  { unfold db1.
    destruct (find_one u_user_id (u_user_id user_data) (users db)) as [d|] eqn:Hfind.
    - exists []. rewrite app_nil_r. split_and!; [done..|by left|].
      apply find_one_Some in Hfind as [Hd <-]. by apply list_elem_of_fmap_2.
    - exists [user_data]. simpl. split_and!; [done..| |].
      + right. exists user_data. split; [done|]. by apply find_one_None.
      + rewrite fmap_app. apply elem_of_app. right. by left. }
  clearbody db1.
  destruct (item_data_of int row) as [item_data|e] eqn:Hid.
  2:{ intros [= <- <-]. exists us, [], []. rewrite !app_nil_r. split_and!; auto. }
  apply item_data_of_Ok in Hid.
  intros [= <- <-]. simpl.
  pose (purchase_data :=
          {| p_purchase_id := randint (3 * k) 1000 9999;
             p_product_id := i_product_id item_data;
             p_user_id := u_user_id user_data;
             p_quantity := randint (3 * k + 1) 1 4;
             p_price := inject_Z (randint (3 * k + 2) 10 1000);
             p_timestamp := utcnow k |}).
  destruct (find_one i_product_id (i_product_id item_data) (items db1)) as [d|] eqn:Hfind.
  - exists us, [], [purchase_data]. rewrite app_nil_r, Hps1.
    split_and!; [done..|by left|].
    eexists. split; [done|]. simpl. split_and!; [done..|].
    apply find_one_Some in Hfind as [Hd <-]. by apply list_elem_of_fmap_2.
  - exists us, [item_data], [purchase_data]. simpl. rewrite Hits1, Hps1.
    split_and!; [done..| |].
    + right. exists item_data. split; [done|].
      rewrite <- Hits1. by apply find_one_None.
    + eexists. split; [done|]. simpl. split_and!; [done..|].
      rewrite fmap_app. apply elem_of_app. right. by left.
Qed.

Lemma NoDup_snoc_fresh {D : Type} (field : D → Z) (l new : list D) :
  NoDup (field <$> l) →
  (new = [] ∨ ∃ d, new = [d] ∧ field d ∉ (field <$> l)) →
  NoDup (field <$> (l ++ new)).
Proof.
  intros Hnd [->|(d & -> & Hd)]; [by rewrite app_nil_r|].
  rewrite fmap_app. apply NoDup_app. split_and!; [done| |by apply NoDup_singleton].
  intros x Hx Hin. apply list_elem_of_singleton in Hin as ->. done.
Qed.

Lemma import_row_consistent (k : nat) (db db' : Db) (row : list string) (o : result unit) :
  consistent db →
  import_row int randint utcnow k db row = (db', o) →
  consistent db'.
Proof.
  intros (Hu & Hi & Hrefs) H.
  apply import_row_spec in H as (us & its & ps & Hus & Hits & Hps & Hfu & Hfi & Ho).
  unfold consistent. rewrite Hus, Hits, Hps. split_and!.
  - by apply NoDup_snoc_fresh.
  - by apply NoDup_snoc_fresh.
  - apply Forall_app. split.
    + eapply Forall_impl; [exact Hrefs|]. intros p [? ?].
      rewrite !fmap_app, !elem_of_app. by split; left.
    + destruct o as [[]|e]; [|by rewrite Ho].
      destruct Ho as (p & -> & _ & _ & Hpu & Hpi).
      apply Forall_singleton. by rewrite <- Hus, <- Hits.
Qed.

(** The whole loop: the store stays consistent, the collections only grow,
    and a complete run adds one purchase per row, with the ids of the row. *)
Lemma import_rows_spec (k : nat) (db db' : Db) (rows : list (list string)) (o : outcome) :
  import_rows int randint utcnow k db rows = (db', o) →
  (consistent db → consistent db')
  ∧ ∃ us its ps,
      users db' = users db ++ us
      ∧ items db' = items db ++ its
      ∧ purchases db' = purchases db ++ ps
      ∧ (o = Imported →
         Forall2 (fun row p => int_at int row 0 = Ok (p_user_id p)
                               ∧ int_at int row 6 = Ok (p_product_id p)) rows ps).
Proof.
  revert k db. induction rows as [|row rows IH]; intros k db; simpl.
  - intros [= <- <-]. split; [done|]. exists [], [], []. rewrite !app_nil_r.
    split_and!; [done..|]. intros _. constructor.
  - destruct (import_row int randint utcnow k db row) as [db1 [[]|e]] eqn:Hrow.
    + intros Hrest. apply IH in Hrest as (Hc & us & its & ps & Hus & Hits & Hps & Ho).
      split.
      { intros Hdb. apply Hc. by eapply import_row_consistent. }
      apply import_row_spec in Hrow
        as (us1 & its1 & ps1 & Hus1 & Hits1 & Hps1 & _ & _ & (p & -> & Hp0 & Hp6 & _)).
      exists (us1 ++ us), (its1 ++ its), (p :: ps).
      rewrite Hus, Hits, Hps, Hus1, Hits1, Hps1, <- !app_assoc.
      split_and!; [done..|].
      intros Himp. constructor; [done|]. by apply Ho.
    + intros [= <- <-]. split.
      { intros Hdb. by eapply import_row_consistent. }
      apply import_row_spec in Hrow
        as (us1 & its1 & ps1 & Hus1 & Hits1 & Hps1 & _ & _ & ->).
      exists us1, its1, []. split_and!; [done..|discriminate].
Qed.

End ScriptProperties.

(** X17.  The import keeps a consistent store consistent, whatever way the
    run ends (also when it stops at a malformed row): it never stores a
    second user with a stored user id, nor a second item with a stored
    product id, and every purchase it adds refers to a stored user and a
    stored item. *)
Theorem import_keeps_store_consistent (int : string → option Z)
    (randint : nat → Z → Z → Z) (utcnow : nat → string)
    (db db' : Db) (lines : list (list string)) (o : outcome) :
  consistent db →
  run int randint utcnow db lines = (db', o) →
  consistent db'.
Proof.
  intros Hdb. unfold run. destruct lines as [|header rows].
  - by intros [= <- <-].
  - intros H. by apply import_rows_spec in H as [Hc _]; apply Hc.
Qed.

Lemma import_keeps_store_consistent_witness : consistent sample_db.
Proof.
  apply (import_keeps_store_consistent decimal sample_randint sample_utcnow
           empty_db sample_db sample_lines Imported).
  - apply (bool_decide_unpack _). vm_compute. exact I.
  - reflexivity.
Defined.

(** X18.  The import only appends: the documents stored before the run are
    all kept, unchanged and in place, so for an id that is already stored
    the stored document wins over the attributes of the row; a run that
    reaches the end of the file adds exactly one purchase per data row. *)
Theorem import_only_appends (int : string → option Z)
    (randint : nat → Z → Z → Z) (utcnow : nat → string)
    (db db' : Db) (lines : list (list string)) (o : outcome) :
  run int randint utcnow db lines = (db', o) →
  ∃ us its ps,
    users db' = users db ++ us
    ∧ items db' = items db ++ its
    ∧ purchases db' = purchases db ++ ps
    ∧ (∀ id d, find_one u_user_id id (users db) = Some d →
               find_one u_user_id id (users db') = Some d)
    ∧ (∀ id d, find_one i_product_id id (items db) = Some d →
               find_one i_product_id id (items db') = Some d)
    ∧ (o = Imported → length ps = pred (length lines)).
Proof.
  unfold run. destruct lines as [|header rows].
  - intros [= <- <-]. exists [], [], []. rewrite !app_nil_r.
    split_and!; [done..|discriminate].
  - intros H. apply import_rows_spec in H as (_ & us & its & ps & Hus & Hits & Hps & Ho).
    exists us, its, ps. split_and!; [done..| | |].
    + intros id d Hd. rewrite Hus. by apply find_one_app_l.
    + intros id d Hd. rewrite Hits. by apply find_one_app_l.
    + intros Himp. simpl. symmetry. eapply Forall2_length. by apply Ho.
Qed.

Lemma import_only_appends_witness :
  ∃ us its ps,
    users sample_db = users empty_db ++ us
    ∧ items sample_db = items empty_db ++ its
    ∧ purchases sample_db = purchases empty_db ++ ps
    ∧ (∀ id d, find_one u_user_id id (users empty_db) = Some d →
               find_one u_user_id id (users sample_db) = Some d)
    ∧ (∀ id d, find_one i_product_id id (items empty_db) = Some d →
               find_one i_product_id id (items sample_db) = Some d)
    ∧ (Imported = Imported → length ps = pred (length sample_lines)).
Proof.
  apply (import_only_appends decimal sample_randint sample_utcnow
           empty_db sample_db sample_lines Imported).
  reflexivity.
Defined.

Lemma join_one_row_each (db : Db) (l : list PurchaseData) :
  NoDup (u_user_id <$> users db) →
  NoDup (i_product_id <$> items db) →
  Forall (fun p => p_user_id p ∈ (u_user_id <$> users db)
                   ∧ p_product_id p ∈ (i_product_id <$> items db)) l →
  Forall2
    (fun p r =>
       ∃ u i, find_one u_user_id (p_user_id p) (users db) = Some u
              ∧ find_one i_product_id (p_product_id p) (items db) = Some i
              ∧ r = project p u i)
    l
    (p ← l;
     u ← filter (fun u => u_user_id u = p_user_id p) (users db);
     i ← filter (fun i => i_product_id i = p_product_id p) (items db);
     [project p u i]).
Proof.
  intros Hu Hi Hrefs.
  induction Hrefs as [|p ps [Hpu Hpi] _ IH]; [constructor|].
  rewrite bind_cons.
  destruct (rows_of_purchase db p Hu Hi Hpu Hpi) as (u & i & Hfu & Hfi & ->).
  constructor; [|exact IH]. by exists u, i.
Qed.

(** Rows of purchases that were already joined are not changed by appending
    users and items, as long as the ids stay unique. *)
Lemma join_stable (db db' : Db) (us : list UserData) (its : list ItemData)
    (l : list PurchaseData) :
  consistent db → consistent db' →
  users db' = users db ++ us →
  items db' = items db ++ its →
  Forall (fun p => p_user_id p ∈ (u_user_id <$> users db)
                   ∧ p_product_id p ∈ (i_product_id <$> items db)) l →
  (p ← l;
   u ← filter (fun u => u_user_id u = p_user_id p) (users db');
   i ← filter (fun i => i_product_id i = p_product_id p) (items db');
   [project p u i])
  = (p ← l;
     u ← filter (fun u => u_user_id u = p_user_id p) (users db);
     i ← filter (fun i => i_product_id i = p_product_id p) (items db);
     [project p u i]).
Proof.
  intros (Hu & Hi & _) (Hu' & Hi' & _) Hus Hits Hrefs.
  induction Hrefs as [|p ps [Hpu Hpi] _ IH]; [done|].
  rewrite !bind_cons, IH. f_equal.
  destruct (rows_of_purchase db p Hu Hi Hpu Hpi) as (u & i & Hfu & Hfi & ->).
  destruct (rows_of_purchase db' p Hu' Hi') as (u' & i' & Hfu' & Hfi' & ->).
  - rewrite Hus, fmap_app, elem_of_app. by left.
  - rewrite Hits, fmap_app, elem_of_app. by left.
  - rewrite Hus in Hfu'. rewrite Hits in Hfi'.
    rewrite (find_one_app_l _ _ _ _ _ Hfu) in Hfu'.
    rewrite (find_one_app_l _ _ _ _ _ Hfi) in Hfi'.
    congruence.
Qed.

(** X19.  After a complete import into a consistent store, the interaction
    feed is the feed of before followed by exactly one row per data row of
    the file, in file order, each carrying the user id and the product id
    parsed from its row. *)
Theorem import_then_feed (int : string → option Z)
    (randint : nat → Z → Z → Z) (utcnow : nat → string)
    (db db' : Db) (header : list string) (rows : list (list string)) :
  consistent db →
  run int randint utcnow db (header :: rows) = (db', Imported) →
  ∃ new_rows,
    aggregate db' = aggregate db ++ new_rows
    ∧ Forall2 (fun row r => int_at int row 0 = Ok (col_user_id r)
                            ∧ int_at int row 6 = Ok (col_product_id r))
        rows new_rows.
Proof.
  intros Hdb H. unfold run in H.
  apply import_rows_spec in H as (Hc & us & its & ps & Hus & Hits & Hps & Ho).
  specialize (Hc Hdb). specialize (Ho eq_refl).
  pose proof Hc as (Hu' & Hi' & Hrefs'). rewrite Hps in Hrefs'.
  apply Forall_app in Hrefs' as [_ Hnew].
  pose proof Hdb as (_ & _ & Hold).
  exists (p ← ps;
          u ← filter (fun u => u_user_id u = p_user_id p) (users db');
          i ← filter (fun i => i_product_id i = p_product_id p) (items db');
          [project p u i]).
  split.
  - unfold aggregate at 1. rewrite Hps, bind_app. f_equal.
    by apply (join_stable db db' us its).
  - eapply Forall2_trans; [|exact Ho|exact (join_one_row_each db' ps Hu' Hi' Hnew)].
    intros row p r [H0 H6] (u & i & _ & _ & ->). done.
Qed.

Lemma import_then_feed_witness :
  ∃ new_rows,
    aggregate sample_db = aggregate empty_db ++ new_rows
    ∧ Forall2 (fun row r => int_at decimal row 0 = Ok (col_user_id r)
                            ∧ int_at decimal row 6 = Ok (col_product_id r))
        (tail sample_lines) new_rows.
Proof.
  apply (import_then_feed decimal sample_randint sample_utcnow empty_db sample_db
           (hd [] sample_lines) (tail sample_lines)).
  - apply (bool_decide_unpack _). vm_compute. exact I.
  - reflexivity.
Defined.

(** ** The two endpoints together, on a cache miss *)

(** X20.  On a cache miss with a store that accepts the write, the
    client-facing endpoint returns exactly the response the orchestrator
    computes for the count 5, whatever count was requested; when the
    orchestrator raises, the client raises [HTTPException] with status 500. *)
Theorem miss_returns_orchestrator_response (V : TfidfVectorizer)
    (rows : list InteractionRecord) (r : Redis) (now u n : Z) :
  redis_get r now (cache_key u) = Ok None →
  setex_fails r = false →
  (get_recommendations (serve V (Ok rows)) r now u n).2
  = match content_recommend V (Ok rows) u 5 with
    | Ok resp => Ok resp
    | Raise _ => Raise (HTTPException 500)
    end.
Proof.
  intros Hmiss Hset. unfold get_recommendations. rewrite Hmiss.
  assert (serve V (Ok rows) u [("num_recommendations", n)]
          = {| status_code := http_status (content_recommend V (Ok rows) u 5);
               json := match content_recommend V (Ok rows) u 5 with
                       | Ok resp => Some resp
                       | Raise _ => None
                       end |}) as -> by reflexivity.
  destruct (content_recommend V (Ok rows) u 5) as [resp|e] eqn:Hresp;
    cbn -[content_recommend].
  - unfold redis_setex. by rewrite Hset.
  - apply content_recommend_Raise in Hresp as [->|[->| ->]]; done.
Qed.

Lemma miss_returns_orchestrator_response_witness :
  (get_recommendations (serve indicator_vectorizer (Ok sample_feed)) empty_store 0 1 2).2
  = match content_recommend indicator_vectorizer (Ok sample_feed) 1 5 with
    | Ok resp => Ok resp
    | Raise _ => Raise (HTTPException 500)
    end.
Proof.
  apply (miss_returns_orchestrator_response indicator_vectorizer sample_feed
           empty_store 0 1 2).
  - reflexivity.
  - reflexivity.
Defined.

(** ** Counts that reach the number of candidates *)

Lemma slice_from_all {A : Type} (K : Z) (l : list A) :
  0 < K → Z.of_nat (length l) ≤ K → slice_from (- K) l = l.
Proof.
  intros HK Hlen. unfold slice_from.
  destruct (Z.ltb_spec (- K) 0) as [_|?]; [|lia].
  by rewrite Z.max_r by lia.
Qed.

Lemma lookup_all_indices (feats : list string) :
  (fun i => default "" (feats !! i)) <$> seq 0 (length feats) = feats.
Proof.
  apply list_eq. intros j. rewrite list_lookup_fmap.
  destruct (decide (j < length feats)%nat) as [Hj|Hj].
  - rewrite lookup_seq_lt by done. simpl.
    destruct (lookup_lt_is_Some_2 feats j Hj) as [x Hx]. by rewrite Hx.
  - rewrite lookup_seq_ge by lia. simpl. symmetry. apply lookup_ge_None_2. lia.
Qed.

Lemma names_of_indices (feats : list string) (mapping : gmap string Z)
    (idxs : list nat) (recs : list Recommendation) :
  Forall2 (fun i e => feats !! i = Some (item_name e)
                      ∧ mapping !! item_name e = Some (item_id e)) idxs recs →
  item_name <$> recs = (fun i => default "" (feats !! i)) <$> idxs.
Proof.
  induction 1 as [|i e idxs recs [Hi _] _ IH]; [done|].
  rewrite !fmap_cons, IH, Hi. done.
Qed.

(** X21.  With a vectorizer that keeps its shape contract, a successful
    request whose count K > 0 is at least the number N of distinct
    combined-feature strings returns every one of them exactly once: the
    combined-feature string of every row of the table is recommended, also
    those of the rows of the requesting user. *)
Theorem large_count_returns_every_candidate (V : TfidfVectorizer)
    (rows : list InteractionRecord) (u K : Z) (resp : RecommendationResponse) :
  well_shaped V →
  content_recommend V (Ok rows) u K = Ok resp →
  0 < K →
  Z.of_nat (length (unique (map combined_features rows))) ≤ K →
  (item_name <$> recommendations resp) ≡ₚ unique (map combined_features rows)
  ∧ ∀ row, row ∈ rows → combined_features row ∈ (item_name <$> recommendations resp).
Proof.
  intros HV Hresp HK HN.
  apply content_recommend_Ok in Hresp as (_ & vec & M & prof & Hfit & _ & Hrecs).
  apply recommend_content_based_Ok in Hrecs as (sims & Hsims & Hall).
  apply linear_kernel_Ok in Hsims as [_ Hlen].
  destruct (HV _ _ _ Hfit) as (HM & _).
  assert (length sims = length (unique (map combined_features rows))) as Hs
    by congruence.
  assert ((item_name <$> recommendations resp)
          ≡ₚ unique (map combined_features rows)) as Hperm.
  { rewrite (names_of_indices _ _ _ _ Hall).
    unfold similar_indices, reversed.
    rewrite slice_from_all; [|done|rewrite argsort_length; lia].
    rewrite reverse_Permutation, argsort_perm, Hs.
    by rewrite lookup_all_indices. }
  split; [done|].
  intros row Hrow. rewrite Hperm. apply elem_of_unique.
  apply list_elem_of_In, in_map, list_elem_of_In. done.
Qed.

Lemma large_count_returns_every_candidate_witness :
  (item_name <$> [ {| item_id := 102; item_name := "books scifi" |};
                   {| item_id := 201; item_name := "toys kids" |} ])
  ≡ₚ unique (map combined_features sample_feed)
  ∧ ∀ row, row ∈ sample_feed →
      combined_features row
      ∈ (item_name <$> [ {| item_id := 102; item_name := "books scifi" |};
                         {| item_id := 201; item_name := "toys kids" |} ]).
Proof.
  apply (large_count_returns_every_candidate indicator_vectorizer sample_feed 1 5
           {| user_id := 1;
              recommendations :=
                [ {| item_id := 102; item_name := "books scifi" |};
                  {| item_id := 201; item_name := "toys kids" |} ] |}).
  - intros docs m X H. simpl in H.
    assert (m = docs ∧ X = map (indicator docs) docs) as [-> ->].
    { destruct docs; [discriminate|]. by injection H as <- <-. }
    split; [apply length_map|].
    exists (length docs). split; [apply indicator_rows_width|].
    intros docs' X' [= <-]. split; [apply length_map|apply indicator_rows_width].
  - reflexivity.
  - lia.
  - vm_compute. discriminate.
Defined.
